(** * GPT-SoVITS text front end: [text/vietnamese.py] and [text/cleaner.py]

    A shallow embedding of the Vietnamese grapheme-to-phoneme module and of
    the language dispatcher [clean_text], followed by the properties of the
    two that the specification states.

    Python strings are sequences of Unicode code points, so a [str] is a list
    of code points; a one-character string is a one-element list.  Python
    integers are [Z].  A call that can raise returns a [result]. *)

From Stdlib Require Import List NArith ZArith Bool Ascii String Sorted Lia.
Import ListNotations.

Local Open Scope N_scope.

(** ** Python strings *)

Definition char := N.
Definition str := list char.

(** Source literals are kept as written: [py "..."] decodes the UTF-8 bytes of
    a literal into its code points (1- to 4-byte sequences). *)
Fixpoint utf8_decode (s : string) (acc : N) (pending : nat) : str :=
  match s with
  | EmptyString => []
  | String a s' =>
      let b := N_of_ascii a in
      match pending with
      | O =>
          if b <? 128 then b :: utf8_decode s' 0 0
          else if b <? 224 then utf8_decode s' (b - 192) 1
          else if b <? 240 then utf8_decode s' (b - 224) 2
          else utf8_decode s' (b - 240) 3
      | S O => (acc * 64 + (b - 128)) :: utf8_decode s' 0 0
      | S k => utf8_decode s' (acc * 64 + (b - 128)) k
      end
  end.

Definition py (s : string) : str := utf8_decode s 0 0.

Fixpoint str_eqb (a b : str) : bool :=
  match a, b with
  | [], [] => true
  | x :: a', y :: b' => (x =? y) && str_eqb a' b'
  | _, _ => false
  end.

(** [x in l] for a list or tuple [l] of strings. *)
Definition in_list (x : str) (l : list str) : bool := existsb (str_eqb x) l.

(** [bool(s)] for a string: the empty string is falsy. *)
Definition truthy (s : str) : bool :=
  match s with [] => false | _ :: _ => true end.

(** [len(l)] *)
Definition len {A} (l : list A) : Z := Z.of_nat (List.length l).

(** [sum(l)] for a list of integers. *)
Definition sum (l : list Z) : Z := fold_left Z.add l 0%Z.

(** [s.startswith(p)] *)
Fixpoint startswith (s p : str) {struct p} : bool :=
  match p, s with
  | [], _ => true
  | _ :: _, [] => false
  | y :: p', x :: s' => (x =? y) && startswith s' p'
  end.

(** [p in s] for strings: [p] occurs in [s] as a substring. *)
Fixpoint contains (s p : str) : bool :=
  startswith s p || match s with [] => false | _ :: s' => contains s' p end.

(** [s.replace(old, new)] for a non-empty [old]: occurrences are replaced left
    to right without overlap.  [skip] counts the characters of an occurrence
    that are still to be passed over. *)
Fixpoint replace_from (old new s : str) (skip : nat) : str :=
  match s with
  | [] => []
  | c :: s' =>
      match skip with
      | S k => replace_from old new s' k
      | O =>
          if startswith s old
          then new ++ replace_from old new s' (pred (List.length old))
          else c :: replace_from old new s' O
      end
  end.

Definition replace (s old new : str) : str := replace_from old new s O.

(** [str.isspace] on one character, which is also the class [\s] of [re] on
    [str] patterns. *)
Definition isspace (c : char) : bool :=
  ((9 <=? c) && (c <=? 13)) || ((28 <=? c) && (c <=? 32))
  || (c =? 133) || (c =? 160) || (c =? 5760)
  || ((8192 <=? c) && (c <=? 8202)) || (c =? 8232) || (c =? 8233)
  || (c =? 8239) || (c =? 8287) || (c =? 12288).

Fixpoint lstrip (s : str) : str :=
  match s with
  | [] => []
  | c :: s' => if isspace c then lstrip s' else s
  end.

Definition rstrip (s : str) : str := rev (lstrip (rev s)).

(** [s.strip()] *)
Definition strip (s : str) : str := rstrip (lstrip s).

(** [s.split()]: the maximal runs of non-whitespace characters, in order.
    [cur] is the word being read. *)
Fixpoint split_from (s cur : str) : list str :=
  match s with
  | [] => match cur with [] => [] | _ :: _ => [cur] end
  | c :: s' =>
      if isspace c
      then match cur with
           | [] => split_from s' []
           | _ :: _ => cur :: split_from s' []
           end
      else split_from s' (cur ++ [c])
  end.

Definition split (s : str) : list str := split_from s [].

(** [re.sub('[class]+', repl, s)]: every maximal run of characters of the
    class becomes one [repl]. *)
Fixpoint sub_runs (cls : char -> bool) (repl s : str) (in_run : bool) : str :=
  match s with
  | [] => []
  | c :: s' =>
      if cls c
      then if in_run then sub_runs cls repl s' true
           else repl ++ sub_runs cls repl s' true
      else c :: sub_runs cls repl s' false
  end.

Definition re_sub_runs (cls : char -> bool) (repl s : str) : str :=
  sub_runs cls repl s false.

(** [re.sub('[^class]', '', s)]: the characters outside the class are deleted. *)
Definition re_delete_outside (cls : char -> bool) (s : str) : str :=
  filter cls s.

(** ** Dictionaries

    A dict literal with string keys, in the order it is written.  The
    literals of the program repeat no key. *)
Definition dict (V : Type) := list (str * V).

Fixpoint dict_get {V} (d : dict V) (k : str) : option V :=
  match d with
  | [] => None
  | (k', v) :: d' => if str_eqb k k' then Some v else dict_get d' k
  end.

Definition dict_mem {V} (d : dict V) (k : str) : bool :=
  match dict_get d k with Some _ => true | None => false end.

(** ** Exceptions *)

Inductive exn :=
| AssertionError
| NameError (name : str)
| KeyError (key : str)
| ModuleNotFoundError (name : str)
| TypeError
| OtherError (code : N).

Inductive result (A : Type) :=
| Ok (a : A)
| Raise (e : exn).
Arguments Ok {A} a.
Arguments Raise {A} e.

Definition bind {A B} (r : result A) (k : A -> result B) : result B :=
  match r with
  | Ok a => k a
  | Raise e => Raise e
  end.

Notation "x <- r ;; k" := (bind r (fun x => k))
  (at level 61, r at next level, right associativity).
Notation "' p <- r ;; k" := (bind r (fun x => let p := x in k))
  (at level 61, p pattern, r at next level, right associativity).

(** [assert b] *)
Definition py_assert (b : bool) : result unit :=
  if b then Ok tt else Raise AssertionError.

(** ** Unicode tables of the interpreter

    [str.lower] and the word class [\w] of [re] are read from the
    interpreter's Unicode database, so the program is modelled over an
    arbitrary pair of them.  [latin_lower] and [latin_isalnum] are the
    instance used for concrete runs: they agree with CPython on every string
    whose characters lie in the Latin blocks (below U+0250, or U+1E00 to
    U+1EFF) and whose letters outside ASCII are all lower-case. *)
Definition latin_lower_char (c : char) : char :=
  if (65 <=? c) && (c <=? 90) then c + 32 else c.

Definition latin_lower (s : str) : str := map latin_lower_char s.

Definition latin_isalnum (c : char) : bool :=
  ((48 <=? c) && (c <=? 57)) || ((65 <=? c) && (c <=? 90))
  || ((97 <=? c) && (c <=? 122))
  || (c =? 170) || (c =? 178) || (c =? 179) || (c =? 181) || (c =? 185)
  || (c =? 186) || ((188 <=? c) && (c <=? 190))
  || ((192 <=? c) && (c <=? 214)) || ((216 <=? c) && (c <=? 246))
  || ((248 <=? c) && (c <=? 591)) || ((7680 <=? c) && (c <=? 7935)).

Section Program.

(** [str.lower] and [str.isalnum] of the interpreter. *)
Variable lower : str -> str.
Variable isalnum : char -> bool.

(** The class [\w]: alphanumeric characters and the underscore. *)
Definition is_word (c : char) : bool := isalnum c || (c =? 95).

(** ** [text/vietnamese.py] *)

Definition INITIALS : list str := [
    py "b"; py "t"; py "th"; py "đ"; py "ch"; py "kh"; py "g"; py "h"; py "l"; py "m"; py "n";
    py "nh"; py "ph"; py "r"; py "s"; py "tr"; py "v"; py "x"; py "qu"; py "gi"; py "k"; py "ng"; py "ngh";
    py "c"; py "d"; py "p"
].

Definition FINALS : list str := [
    py "a"; py "ă"; py "â"; py "e"; py "ê"; py "i"; py "o"; py "ô"; py "ơ"; py "u"; py "ư"; py "y";
    py "ai"; py "ao"; py "au"; py "ay"; py "eo"; py "êu"; py "ia"; py "iê"; py "iu"; py "oa"; py "oă";
    py "oe"; py "oi"; py "ôi"; py "ơi"; py "ua"; py "uâ"; py "ue"; py "uê"; py "ui"; py "uo"; py "ươ";
    py "uy"; py "yê"; py "ya"; py "âu"; py "ău"; py "iêu"; py "yêu"; py "uôi"; py "ươi"; py "ươu";
    py "an"; py "ăn"; py "ân"; py "en"; py "ên"; py "in"; py "on"; py "ôn"; py "ơn"; py "un"; py "ưn"; py "yn";
    py "ang"; py "ăng"; py "âng"; py "eng"; py "êng"; py "ing"; py "ong"; py "ông"; py "ơng"; py "ung"; py "ưng";
    py "anh"; py "ênh"; py "inh"; py "oanh"; py "uênh";
    py "ach"; py "êch"; py "ich"; py "och"; py "ôch"; py "ơch"; py "uch"; py "ưch";
    py "ac"; py "ăc"; py "âc"; py "ec"; py "êc"; py "ic"; py "oc"; py "ôc"; py "ơc"; py "uc"; py "ưc";
    py "ap"; py "ăp"; py "âp"; py "ep"; py "êp"; py "ip"; py "op"; py "ôp"; py "ơp"; py "up"; py "ưp";
    py "at"; py "ăt"; py "ât"; py "et"; py "êt"; py "it"; py "ot"; py "ôt"; py "ơt"; py "ut"; py "ưt"
].

Definition TONES : list str :=
  [py "1"; py "2"; py "3"; py "4"; py "5"; py "6"].

Definition SPECIAL : list str := [py "SP"; py "SP2"; py "SP3"; py "UNK"].

Definition vietnamese_symbols : list str :=
  INITIALS ++ FINALS ++ TONES ++ SPECIAL.

Definition TONE_MAPPING : dict (str * str) := [
    (py "à", (py "a", py "2")); (py "á", (py "a", py "3")); (py "ả", (py "a", py "4")); (py "ã", (py "a", py "5")); (py "ạ", (py "a", py "6"));
    (py "ằ", (py "ă", py "2")); (py "ắ", (py "ă", py "3")); (py "ẳ", (py "ă", py "4")); (py "ẵ", (py "ă", py "5")); (py "ặ", (py "ă", py "6"));
    (py "ầ", (py "â", py "2")); (py "ấ", (py "â", py "3")); (py "ẩ", (py "â", py "4")); (py "ẫ", (py "â", py "5")); (py "ậ", (py "â", py "6"));
    (py "è", (py "e", py "2")); (py "é", (py "e", py "3")); (py "ẻ", (py "e", py "4")); (py "ẽ", (py "e", py "5")); (py "ẹ", (py "e", py "6"));
    (py "ề", (py "ê", py "2")); (py "ế", (py "ê", py "3")); (py "ể", (py "ê", py "4")); (py "ễ", (py "ê", py "5")); (py "ệ", (py "ê", py "6"));
    (py "ì", (py "i", py "2")); (py "í", (py "i", py "3")); (py "ỉ", (py "i", py "4")); (py "ĩ", (py "i", py "5")); (py "ị", (py "i", py "6"));
    (py "ò", (py "o", py "2")); (py "ó", (py "o", py "3")); (py "ỏ", (py "o", py "4")); (py "õ", (py "o", py "5")); (py "ọ", (py "o", py "6"));
    (py "ồ", (py "ô", py "2")); (py "ố", (py "ô", py "3")); (py "ổ", (py "ô", py "4")); (py "ỗ", (py "ô", py "5")); (py "ộ", (py "ô", py "6"));
    (py "ờ", (py "ơ", py "2")); (py "ớ", (py "ơ", py "3")); (py "ở", (py "ơ", py "4")); (py "ỡ", (py "ơ", py "5")); (py "ợ", (py "ơ", py "6"));
    (py "ù", (py "u", py "2")); (py "ú", (py "u", py "3")); (py "ủ", (py "u", py "4")); (py "ũ", (py "u", py "5")); (py "ụ", (py "u", py "6"));
    (py "ừ", (py "ư", py "2")); (py "ứ", (py "ư", py "3")); (py "ử", (py "ư", py "4")); (py "ữ", (py "ư", py "5")); (py "ự", (py "ư", py "6"));
    (py "ỳ", (py "y", py "2")); (py "ý", (py "y", py "3")); (py "ỷ", (py "y", py "4")); (py "ỹ", (py "y", py "5")); (py "ỵ", (py "y", py "6"))
].

(** The class of the second substitution: semicolon (59), colon (58), double
    quote (34) and single quote (39). *)
Definition is_separator_punct (c : char) : bool :=
  (c =? 59) || (c =? 58) || (c =? 34) || (c =? 39).

(** The characters the last substitution keeps: the complement of
    [[^\w\s,.!?...]]. *)
Definition is_allowed (c : char) : bool :=
  is_word c || isspace c
  || existsb (N.eqb c) (py ",.!?")
  || existsb (N.eqb c)
       (py "àáảãạằắẳẵặầấẩẫậèéẻẽẹềếểễệìíỉĩịòóỏõọồốổỗộờớởỡợùúủũụừứửữựỳýỷỹỵđ").

Definition text_normalize (text : str) : str :=
  (* Remove multiple spaces and trim *)
  let text := re_sub_runs isspace (py " ") (strip text) in
  (* Convert to lowercase *)
  let text := lower text in
  (* Replace specific punctuation with comma *)
  let text := re_sub_runs is_separator_punct (py ",") text in
  (* Keep only allowed punctuation *)
  re_delete_outside is_allowed text.

(** One turn of the loop of [find_tone] on the pair [(result, tone)]. *)
Definition find_tone_step (st : str * str) (c : char) : str * str :=
  let '(result, tone) := st in
  match dict_get TONE_MAPPING [c] with
  | Some (base, tone') => (result ++ base, tone')
  | None => (result ++ [c], tone)
  end.

Definition find_tone (word : str) : str * str :=
  fold_left find_tone_step word ([], py "1").

(** [sorted(l, key=len, reverse=True)]: a stable sort, longest first; strings
    of one length keep the order they have in [l]. *)
Fixpoint insert_by_len (x : str) (l : list str) : list str :=
  match l with
  | [] => [x]
  | y :: l' =>
      if (List.length y <=? List.length x)%nat then x :: l
      else y :: insert_by_len x l'
  end.

Definition sorted_by_len_desc (l : list str) : list str :=
  fold_right insert_by_len [] l.

Definition find_closest_final (final : str) : str :=
  if in_list final FINALS then final
  else
    (* Try common transformations *)
    let transformations : list (str -> str) := [
      (fun x => replace x (py "uo") (py "ưo"));
      (fun x => replace x (py "ua") (py "ưa"));
      (fun x => replace x (py "oi") (py "ơi"));
      (fun x => replace x (py "ou") (py "ơu"))
    ] in
    match find (fun transform => in_list (transform final) FINALS)
               transformations with
    | Some transform => transform final
    | None => final
    end.

Definition split_vietnamese_word (word : str) : str * str * str :=
  (* First, extract tone and get clean word *)
  let '(word_without_tone, tone) := find_tone word in
  (* Find initial consonant *)
  let sorted_initials := sorted_by_len_desc INITIALS in
  let '(initial, word_without_tone) :=
    match find (startswith word_without_tone) sorted_initials with
    | Some i => (i, skipn (List.length i) word_without_tone)
    | None => ([], word_without_tone)
    end in
  (* The rest is final *)
  let final := word_without_tone in
  (* Validate final *)
  let final :=
    if negb (in_list final FINALS)
    then let closest_final := find_closest_final final in
         if truthy closest_final then closest_final else final
    else final in
  (initial, final, tone).

(** One turn of the loop of [g2p] on the lists [(phonemes, word2ph)]. *)
Definition g2p_step (st : list str * list Z) (word : str)
  : list str * list Z :=
  let '(phonemes, word2ph) := st in
  (* Handle punctuation *)
  if in_list word [py ","; py "."; py "!"; py "?"]
  then (phonemes ++ [word], word2ph ++ [1%Z])
  (* Handle special tokens *)
  else if in_list word SPECIAL
  then (phonemes ++ [word], word2ph ++ [1%Z])
  else
    (* Process Vietnamese word *)
    let '(initial, final, tone) := split_vietnamese_word word in
    (* Build phoneme sequence *)
    let current_phonemes := [] in
    let current_phonemes :=
      if truthy initial
      then let initial :=
             if negb (in_list initial INITIALS) then py "UNK" else initial in
           current_phonemes ++ [initial]
      else current_phonemes in
    let current_phonemes :=
      if truthy final
      then let final :=
             if negb (in_list final FINALS) then py "UNK" else final in
           current_phonemes ++ [final]
      else current_phonemes in
    let current_phonemes :=
      if negb (str_eqb tone (py "1"))
      then current_phonemes ++ [tone]
      else current_phonemes in
    (phonemes ++ current_phonemes, word2ph ++ [len current_phonemes]).

Definition g2p (text : str) : list str * list Z :=
  let normalized_text := text_normalize text in
  let words := split normalized_text in
  fold_left g2p_step words ([], []).

(** ** [text/cleaner.py] *)

(** What a strategy's [g2p] returns: a list of phonemes, or a pair of the
    phonemes and the alignment counts. *)
Inductive g2p_value :=
| Phones (phones : list str)
| PhonesWord2ph (phones : list str) (word2ph : list Z).

(** A language module as [clean_text] uses it: [text_normalize_attr] is
    [None] when [hasattr(language_module, "text_normalize")] is false. *)
Record py_module := {
  text_normalize_attr : option (str -> result str);
  g2p_attr : str -> result g2p_value
}.

(** [phones, word2ph = v] *)
Definition unpack_pair (v : g2p_value) : result (list str * list Z) :=
  match v with
  | PhonesWord2ph phones word2ph => Ok (phones, word2ph)
  | Phones _ => Raise TypeError
  end.

(** [phones = v] where the code goes on to use [phones] as a list. *)
Definition as_list (v : g2p_value) : result (list str) :=
  match v with
  | Phones phones => Ok phones
  | PhonesWord2ph _ _ => Raise TypeError
  end.

(** [d[k]] *)
Definition dict_getitem {V} (d : dict V) (k : str) : result V :=
  match dict_get d k with
  | Some v => Ok v
  | None => Raise (KeyError k)
  end.

(** The module [text.vietnamese] above. *)
Definition vietnamese : py_module := {|
  text_normalize_attr := Some (fun text => Ok (text_normalize text));
  g2p_attr := fun text =>
    let '(phonemes, word2ph) := g2p text in Ok (PhonesWord2ph phonemes word2ph)
|}.

(** The symbol tables [text.symbols.symbols] and [text.symbols2.symbols]. *)
Variables symbols_v1 symbols_v2 : list str.

(** [os.environ] *)
Variable environ : dict str.

(** The other language modules of the package [text]. *)
Variables chinese chinese2 japanese english korean cantonese : py_module.

(** [__import__("text." + name, fromlist=[name])] *)
Definition import_text (name : str) : result py_module :=
  if str_eqb name (py "chinese") then Ok chinese
  else if str_eqb name (py "chinese2") then Ok chinese2
  else if str_eqb name (py "japanese") then Ok japanese
  else if str_eqb name (py "english") then Ok english
  else if str_eqb name (py "korean") then Ok korean
  else if str_eqb name (py "cantonese") then Ok cantonese
  else if str_eqb name (py "vietnamese") then Ok vietnamese
  else Raise (ModuleNotFoundError name).

Definition special : list (str * str * str) := [
    (py "￥", py "zh", py "SP2");
    (py "^", py "zh", py "SP3")
].

(** What [clean_text] returns: [(phones, word2ph, norm_text)], with [None]
    for an absent [word2ph]. *)
Definition cleaned := (list str * option (list Z) * str)%type.

(** The type of a function called as
    [clean_special(text, language, special_s, target_symbol, version)]. *)
Definition clean_special_type := str -> str -> str -> str -> str -> result cleaned.

(** Looking up a global name of the module. *)
Definition global {A} (name : str) (binding : option A) : result A :=
  match binding with
  | Some a => Ok a
  | None => Raise (NameError name)
  end.

(** [clean_text] in a module whose global name [clean_special] has the binding
    [clean_special] ([None]: the name is not bound). *)
Definition clean_text_in (clean_special : option clean_special_type)
    (text language : str) (version : option str) : result cleaned :=
  let version :=
    match version with
    | Some v => v
    | None =>
        match dict_get environ (py "version") with
        | Some v => v
        | None => py "v2"
        end
    end in
  let '(symbols, language_module_map) :=
    if str_eqb version (py "v1")
    then (symbols_v1,
          [ (py "zh", py "chinese");
            (py "ja", py "japanese");
            (py "en", py "english");
            (py "vi", py "vietnamese") ])
    else (symbols_v2,
          [ (py "zh", py "chinese2");
            (py "ja", py "japanese");
            (py "en", py "english");
            (py "ko", py "korean");
            (py "yue", py "cantonese");
            (py "vi", py "vietnamese") ]) in
  let '(language, text) :=
    if negb (dict_mem language_module_map language)
    then (py "en", py " ")
    else (language, text) in
  match find (fun '(special_s, special_l, _) =>
                contains text special_s && str_eqb language special_l)
             special with
  | Some (special_s, _, target_symbol) =>
      f <- global (py "clean_special") clean_special ;;
      f text language special_s target_symbol version
  | None =>
      module_name <- dict_getitem language_module_map language ;;
      language_module <- import_text module_name ;;
      norm_text <-
        match text_normalize_attr language_module with
        | Some normalize => normalize text
        | None => Ok text
        end ;;
      ' (phones, word2ph) <-
        (if in_list language [py "zh"; py "yue"] then
           v <- g2p_attr language_module norm_text ;;
           ' (phones, word2ph) <- unpack_pair v ;;
           _ <- py_assert (len phones =? sum word2ph)%Z ;;
           _ <- py_assert (len norm_text =? len word2ph)%Z ;;
           Ok (phones, Some word2ph)
         else if str_eqb language (py "vi") then
           v <- g2p_attr language_module norm_text ;;
           ' (phones, word2ph) <- unpack_pair v ;;
           _ <- py_assert (len phones =? sum word2ph)%Z ;;
           Ok (phones, Some word2ph)
         else if str_eqb language (py "en") then
           v <- g2p_attr language_module norm_text ;;
           phones <- as_list v ;;
           let phones :=
             if (len phones <? 4)%Z then [py ","] ++ phones else phones in
           Ok (phones, None)
         else
           v <- g2p_attr language_module norm_text ;;
           phones <- as_list v ;;
           Ok (phones, None)) ;;
      let phones :=
        map (fun ph => if negb (in_list ph symbols) then py "UNK" else ph)
            phones in
      Ok (phones, word2ph, norm_text)
  end.

(** [cleaner.py] binds the names [cleaned_text_to_sequence], [os],
    [symbols_v1], [symbols_v2], [special] and [clean_text]: it neither defines
    nor imports [clean_special]. *)
Definition clean_text : str -> str -> option str -> result cleaned :=
  clean_text_in None.

(** ** The specification's reading of the Vietnamese module

    These definitions follow the words of the specification; the theorems
    below compare them with the functions above. *)

(** The de-toned form of one character: its base vowel when the character is
    in the diacritic table, the character itself otherwise. *)
Definition detone_char (c : char) : str :=
  match dict_get TONE_MAPPING [c] with
  | Some (base, _) => base
  | None => [c]
  end.

(** The rewrite heuristics for a final outside the vocabulary, in their
    order: the first rewrite that gives a valid final, else the final as it
    is. *)
Definition repaired_final (final : str) : str :=
  if in_list final FINALS then final
  else if in_list (replace final (py "uo") (py "ưo")) FINALS
  then replace final (py "uo") (py "ưo")
  else if in_list (replace final (py "ua") (py "ưa")) FINALS
  then replace final (py "ua") (py "ưa")
  else if in_list (replace final (py "oi") (py "ơi")) FINALS
  then replace final (py "oi") (py "ơi")
  else if in_list (replace final (py "ou") (py "ơu")) FINALS
  then replace final (py "ou") (py "ơu")
  else final.

(** The tokens one word contributes: the word itself for a punctuation mark
    or a special token; otherwise the initial and the final when non-empty,
    each replaced by [UNK] outside its vocabulary, and the tone unless it
    is [1]. *)
Definition emitted_tokens (word : str) : list str :=
  if in_list word [py ","; py "."; py "!"; py "?"] || in_list word SPECIAL
  then [word]
  else
    let '(initial, final, tone) := split_vietnamese_word word in
    (if truthy initial
     then [if in_list initial INITIALS then initial else py "UNK"]
     else [])
    ++ (if truthy final
        then [if in_list final FINALS then final else py "UNK"]
        else [])
    ++ (if str_eqb tone (py "1") then [] else [tone]).

(** The order of [sorted(l, key=len, reverse=True)]: no string is followed
    by a longer one. *)
Definition longer_first (a b : str) : Prop :=
  (List.length b <= List.length a)%nat.

(** The version in force, its symbol table and its registry. *)
Definition resolved_version (version : option str) : str :=
  match version with
  | Some v => v
  | None =>
      match dict_get environ (py "version") with
      | Some v => v
      | None => py "v2"
      end
  end.

Definition active_symbols (version : option str) : list str :=
  if str_eqb (resolved_version version) (py "v1")
  then symbols_v1 else symbols_v2.

Definition active_registry (version : option str) : list str :=
  if str_eqb (resolved_version version) (py "v1")
  then [py "zh"; py "ja"; py "en"; py "vi"]
  else [py "zh"; py "ja"; py "en"; py "ko"; py "yue"; py "vi"].

(** The normalization step of [clean_text] for a language module: its
    [text_normalize] when it has one, the text itself otherwise. *)
Definition module_normalize (m : py_module) (text : str) : result str :=
  match text_normalize_attr m with
  | Some normalize => normalize text
  | None => Ok text
  end.

(** The symbol validation of one token. *)
Definition validated (symbols : list str) (ph : str) : str :=
  if in_list ph symbols then ph else py "UNK".

(** Sample collaborators for concrete runs: a strategy of the plain class
    that finds no phoneme, one of the aligned class that finds none, and a
    symbol table. *)
Definition silent_module : py_module := {|
  text_normalize_attr := None;
  g2p_attr := fun _ => Ok (Phones [])
|}.

Definition silent_aligned_module : py_module := {|
  text_normalize_attr := None;
  g2p_attr := fun _ => Ok (PhonesWord2ph [] [])
|}.

(** A strategy whose [g2p] raises. *)
Definition failing_module : py_module := {|
  text_normalize_attr := None;
  g2p_attr := fun _ => Raise (OtherError 0)
|}.

Definition sample_symbols : list str :=
  [py ","; py "."; py "!"; py "?"] ++ vietnamese_symbols.

(** Every token [g2p] can emit: the punctuation marks, the special tokens,
    the initials, the finals and the tones other than [1]. *)
Definition g2p_vocabulary : list str :=
  [py ","; py "."; py "!"; py "?"] ++ SPECIAL ++ INITIALS ++ FINALS
  ++ [py "2"; py "3"; py "4"; py "5"; py "6"].

(** [sep.join(words)] *)
Fixpoint join (sep : str) (words : list str) : str :=
  match words with
  | [] => []
  | [w] => w
  | w :: words' => w ++ sep ++ join sep words'
  end.

(** A character an already normalized word is made of: neither whitespace
    nor one of the separators replaced by a comma, and kept by the last
    substitution of [text_normalize]. *)
Definition plain_char (c : char) : bool :=
  negb (isspace c) && negb (is_separator_punct c) && is_allowed c.

(** ** Strings and lists *)

Lemma str_eqb_eq (a b : str) : str_eqb a b = true <-> a = b.
Proof.
  revert b; induction a as [|x a IH]; intros [|y b]; simpl;
    try (split; [discriminate | intros H; discriminate H]).
  - split; reflexivity.
  - rewrite andb_true_iff, N.eqb_eq, IH. split.
    + intros [-> ->]; reflexivity.
    + intros H; injection H; auto.
Qed.

Lemma str_eqb_refl (a : str) : str_eqb a a = true.
Proof. apply str_eqb_eq; reflexivity. Qed.

Lemma in_list_In (x : str) (l : list str) : in_list x l = true <-> In x l.
Proof.
  unfold in_list. rewrite existsb_exists. split.
  - intros [y [Hy E]]. apply str_eqb_eq in E. subst; assumption.
  - intros H. exists x. split; [assumption | apply str_eqb_refl].
Qed.

Lemma truthy_nonempty (s : str) : truthy s = true <-> s <> [].
Proof. destruct s; simpl; split; congruence. Qed.

Lemma startswith_app (s p : str) :
  startswith s p = true <-> exists rest, s = p ++ rest.
Proof.
  revert s; induction p as [|y p IH]; intros s; simpl.
  - split; [intros _; exists s; reflexivity | reflexivity].
  - destruct s as [|x s].
    + split; [discriminate | intros [r H]; discriminate H].
    + rewrite andb_true_iff, N.eqb_eq, IH. split.
      * intros [-> [r ->]]. exists r; reflexivity.
      * intros [r H]. injection H as -> ->. split; [reflexivity | eauto].
Qed.

Lemma skipn_prefix (p rest : str) : skipn (List.length p) (p ++ rest) = rest.
Proof. induction p; simpl; auto. Qed.

Lemma sum_from (l : list Z) (a : Z) : fold_left Z.add l a = (a + sum l)%Z.
Proof.
  unfold sum. revert a; induction l as [|x l IH]; intros a; simpl.
  - lia.
  - rewrite IH, (IH x). lia.
Qed.

Lemma sum_cons (x : Z) (l : list Z) : sum (x :: l) = (x + sum l)%Z.
Proof. unfold sum at 1; simpl. apply sum_from. Qed.

Lemma len_app {A} (l l' : list A) : len (l ++ l') = (len l + len l')%Z.
Proof. unfold len. rewrite length_app. lia. Qed.

Lemma split_from_nonempty (s cur : str) :
  Forall (fun w => w <> []) (split_from s cur).
Proof.
  revert cur; induction s as [|c s IH]; intros cur; simpl.
  - destruct cur; constructor; [discriminate | constructor].
  - destruct (isspace c).
    + destruct cur; [apply IH | constructor; [discriminate | apply IH]].
    + apply IH.
Qed.

(** ** Tone extraction *)

Lemma find_tone_step_eq (r t : str) (c : char) :
  find_tone_step (r, t) c =
  (r ++ detone_char c,
   match dict_get TONE_MAPPING [c] with Some (_, t') => t' | None => t end).
Proof.
  unfold find_tone_step, detone_char.
  destruct (dict_get TONE_MAPPING [c]) as [[b t']|]; reflexivity.
Qed.

Lemma find_tone_fold_fst (w : str) : forall r t,
  fst (fold_left find_tone_step w (r, t)) = r ++ flat_map detone_char w.
Proof.
  induction w as [|c w IH]; intros r t; cbn [fold_left flat_map].
  - rewrite app_nil_r; reflexivity.
  - rewrite find_tone_step_eq, IH, app_assoc; reflexivity.
Qed.

Lemma find_tone_fold_unmarked (w : str) :
  (forall c, In c w -> dict_get TONE_MAPPING [c] = None) ->
  forall r t, snd (fold_left find_tone_step w (r, t)) = t.
Proof.
  induction w as [|c w IH]; intros H r t; cbn [fold_left].
  - reflexivity.
  - rewrite find_tone_step_eq, (H c (or_introl eq_refl)).
    apply IH. intros c' Hc'. apply H. right; assumption.
Qed.

Lemma find_tone_fst (word : str) :
  fst (find_tone word) = flat_map detone_char word.
Proof. unfold find_tone. rewrite find_tone_fold_fst. reflexivity. Qed.

Lemma find_tone_last_mark (pre post : str) (c : char) (base tone : str) :
  dict_get TONE_MAPPING [c] = Some (base, tone) ->
  (forall c', In c' post -> dict_get TONE_MAPPING [c'] = None) ->
  snd (find_tone (pre ++ c :: post)) = tone.
Proof.
  intros Hc Hpost. unfold find_tone. rewrite fold_left_app. cbn [fold_left].
  destruct (fold_left find_tone_step pre ([], py "1")) as [r t].
  rewrite find_tone_step_eq, Hc.
  apply find_tone_fold_unmarked; assumption.
Qed.

Lemma dict_get_In {V} (d : dict V) (k : str) (v : V) :
  dict_get d k = Some v -> In (k, v) d.
Proof.
  induction d as [|[k' v'] d IH]; cbn [dict_get]; [discriminate|].
  destruct (str_eqb k k') eqn:E.
  - apply str_eqb_eq in E. intros H; injection H as ->. left; congruence.
  - intros H. right; auto.
Qed.

Lemma detone_char_nonempty (c : char) : detone_char c <> [].
Proof.
  unfold detone_char.
  destruct (dict_get TONE_MAPPING [c]) as [[b t]|] eqn:E; [|discriminate].
  apply dict_get_In in E.
  assert (A : forallb (fun e => truthy (fst (snd e))) TONE_MAPPING = true)
    by (vm_compute; reflexivity).
  rewrite forallb_forall in A. apply A in E. cbn [fst snd] in E.
  apply truthy_nonempty; assumption.
Qed.

Lemma find_tone_nonempty (word : str) :
  word <> [] -> fst (find_tone word) <> [].
Proof.
  rewrite find_tone_fst. destruct word as [|c w]; [congruence|].
  intros _. cbn [flat_map]. intros H. apply app_eq_nil in H.
  exact (detone_char_nonempty c (proj1 H)).
Qed.

(** ** The longest initial *)

Lemma insert_by_len_In (x y : str) (l : list str) :
  In y (insert_by_len x l) <-> y = x \/ In y l.
Proof.
  induction l as [|z l IH]; cbn [insert_by_len].
  - simpl. intuition congruence.
  - destruct (List.length z <=? List.length x)%nat; simpl in *.
    + intuition congruence.
    + rewrite IH. intuition congruence.
Qed.

Lemma sorted_by_len_desc_In (y : str) (l : list str) :
  In y (sorted_by_len_desc l) <-> In y l.
Proof.
  induction l as [|x l IH]; cbn [sorted_by_len_desc fold_right].
  - reflexivity.
  - fold (sorted_by_len_desc l). rewrite insert_by_len_In, IH.
    simpl. intuition congruence.
Qed.

Lemma insert_by_len_sorted (x : str) (l : list str) :
  StronglySorted longer_first l ->
  StronglySorted longer_first (insert_by_len x l).
Proof.
  induction 1 as [|z l Hl IH Hz]; cbn [insert_by_len].
  - constructor; constructor.
  - destruct (List.length z <=? List.length x)%nat eqn:E.
    + apply Nat.leb_le in E. constructor.
      * constructor; assumption.
      * constructor; [exact E|].
        rewrite Forall_forall in *. intros y Hy.
        specialize (Hz y Hy). unfold longer_first in *. lia.
    + apply Nat.leb_gt in E. constructor; [assumption|].
      rewrite Forall_forall in *. intros y Hy.
      apply insert_by_len_In in Hy. destruct Hy as [-> | Hy].
      * unfold longer_first; lia.
      * auto.
Qed.

Lemma sorted_by_len_desc_sorted (l : list str) :
  StronglySorted longer_first (sorted_by_len_desc l).
Proof.
  induction l as [|x l IH]; cbn [sorted_by_len_desc fold_right].
  - constructor.
  - apply insert_by_len_sorted. exact IH.
Qed.

Lemma find_longest (p : str -> bool) (l : list str) (i : str) :
  StronglySorted longer_first l -> find p l = Some i ->
  forall j, In j l -> p j = true -> (List.length j <= List.length i)%nat.
Proof.
  induction 1 as [|a l Hl IH Ha]; cbn [find]; [discriminate|].
  destruct (p a) eqn:Pa; intros Hi j Hj Pj.
  - injection Hi as <-. destruct Hj as [<- | Hj]; [lia|].
    rewrite Forall_forall in Ha. exact (Ha j Hj).
  - destruct Hj as [<- | Hj]; [congruence|]. eauto.
Qed.

(** ** The final *)

Lemma in_FINALS_truthy (x : str) : in_list x FINALS = true -> truthy x = true.
Proof.
  destruct x; [|reflexivity]. vm_compute. auto.
Qed.

Lemma in_INITIALS_truthy (x : str) : In x INITIALS -> truthy x = true.
Proof.
  intros H. apply in_list_In in H.
  destruct x; [|reflexivity]. vm_compute in H. discriminate H.
Qed.

Lemma validated_final (rest : str) :
  (if negb (in_list rest FINALS)
   then let closest_final := find_closest_final rest in
        if truthy closest_final then closest_final else rest
   else rest) = repaired_final rest.
Proof.
  unfold find_closest_final, repaired_final.
  destruct (in_list rest FINALS) eqn:E0; cbn [negb]; [reflexivity|].
  cbn [find].
  destruct (in_list (replace rest (py "uo") (py "ưo")) FINALS) eqn:E1;
    [rewrite (in_FINALS_truthy _ E1); reflexivity|].
  destruct (in_list (replace rest (py "ua") (py "ưa")) FINALS) eqn:E2;
    [rewrite (in_FINALS_truthy _ E2); reflexivity|].
  destruct (in_list (replace rest (py "oi") (py "ơi")) FINALS) eqn:E3;
    [rewrite (in_FINALS_truthy _ E3); reflexivity|].
  destruct (in_list (replace rest (py "ou") (py "ơu")) FINALS) eqn:E4;
    [rewrite (in_FINALS_truthy _ E4); reflexivity|].
  destruct (truthy rest); reflexivity.
Qed.

Lemma repaired_final_truthy (rest : str) :
  truthy rest = true -> truthy (repaired_final rest) = true.
Proof.
  intros H. unfold repaired_final.
  repeat match goal with
         | |- context [if in_list ?x FINALS then _ else _] =>
             let E := fresh "E" in
             destruct (in_list x FINALS) eqn:E;
             [solve [assumption | exact (in_FINALS_truthy _ E)] |]
         end.
  assumption.
Qed.

(** The shape of every result of [split_vietnamese_word]. *)
Lemma split_vietnamese_word_shape (word : str) :
  exists initial rest,
    fst (find_tone word) = initial ++ rest /\
    ((In initial INITIALS /\
      forall i, In i INITIALS -> startswith (fst (find_tone word)) i = true ->
                (List.length i <= List.length initial)%nat)
     \/ (initial = [] /\
         forall i, In i INITIALS ->
                   startswith (fst (find_tone word)) i = false)) /\
    split_vietnamese_word word
    = (initial, repaired_final rest, snd (find_tone word)).
Proof.
  unfold split_vietnamese_word.
  destruct (find_tone word) as [d tone]; cbn [fst snd].
  destruct (find (startswith d) (sorted_by_len_desc INITIALS)) as [i|] eqn:F.
  - destruct (find_some _ _ F) as [Hin Hpre].
    apply startswith_app in Hpre. destruct Hpre as [rest ->].
    exists i, rest. split; [reflexivity|]. split.
    + left. split; [apply sorted_by_len_desc_In; exact Hin|].
      intros j Hj Pj.
      apply (find_longest _ _ _ (sorted_by_len_desc_sorted INITIALS) F j);
        [apply sorted_by_len_desc_In; exact Hj | exact Pj].
    + rewrite skipn_prefix, validated_final. reflexivity.
  - exists [], d. split; [reflexivity|]. split.
    + right. split; [reflexivity|]. intros j Hj.
      apply (find_none _ _ F). apply sorted_by_len_desc_In; exact Hj.
    + rewrite validated_final. reflexivity.
Qed.

(** ** Phoneme assembly *)

Lemma g2p_step_eq (phonemes : list str) (word2ph : list Z) (word : str) :
  g2p_step (phonemes, word2ph) word
  = (phonemes ++ emitted_tokens word,
     word2ph ++ [len (emitted_tokens word)]).
Proof.
  unfold g2p_step, emitted_tokens.
  destruct (in_list word [py ","; py "."; py "!"; py "?"]);
    cbn [orb]; [reflexivity|].
  destruct (in_list word SPECIAL); [reflexivity|].
  destruct (split_vietnamese_word word) as [[initial final] tone].
  destruct (truthy initial), (truthy final), (in_list initial INITIALS),
    (in_list final FINALS), (str_eqb tone (py "1")); reflexivity.
Qed.

Lemma g2p_fold (words : list str) : forall phonemes word2ph,
  fold_left g2p_step words (phonemes, word2ph)
  = (phonemes ++ flat_map emitted_tokens words,
     word2ph ++ map (fun w => len (emitted_tokens w)) words).
Proof.
  induction words as [|w words IH]; intros phonemes word2ph;
    cbn [fold_left flat_map map].
  - rewrite !app_nil_r; reflexivity.
  - rewrite g2p_step_eq, IH, <- !app_assoc. reflexivity.
Qed.

Lemma g2p_eq (text : str) :
  g2p text
  = (flat_map emitted_tokens (split (text_normalize text)),
     map (fun w => len (emitted_tokens w)) (split (text_normalize text))).
Proof. unfold g2p. rewrite g2p_fold. reflexivity. Qed.

Lemma emitted_tokens_at_most_3 (word : str) :
  (len (emitted_tokens word) <= 3)%Z.
Proof.
  unfold emitted_tokens.
  destruct (in_list word [py ","; py "."; py "!"; py "?"] ||
            in_list word SPECIAL); [unfold len; simpl; lia|].
  destruct (split_vietnamese_word word) as [[initial final] tone].
  destruct (truthy initial), (truthy final), (str_eqb tone (py "1"));
    unfold len; simpl; lia.
Qed.

Lemma emitted_tokens_at_least_1 (word : str) :
  word <> [] -> (1 <= len (emitted_tokens word))%Z.
Proof.
  intros Hw. unfold emitted_tokens.
  destruct (in_list word [py ","; py "."; py "!"; py "?"] ||
            in_list word SPECIAL); [unfold len; simpl; lia|].
  destruct (split_vietnamese_word_shape word)
    as (initial & rest & Hd & Hi & ->).
  assert (T : truthy initial = true \/ truthy (repaired_final rest) = true).
  { destruct Hi as [[Hin _] | [-> _]].
    - left. apply in_INITIALS_truthy; exact Hin.
    - right. apply repaired_final_truthy. apply truthy_nonempty.
      cbn [app] in Hd. rewrite <- Hd. apply find_tone_nonempty; exact Hw. }
  destruct (truthy initial), (truthy (repaired_final rest)),
    (str_eqb (snd (find_tone word)) (py "1"));
    unfold len; simpl; try lia; destruct T; discriminate.
Qed.

Lemma flat_map_len {A} (f : A -> list str) (l : list A) :
  sum (map (fun x => len (f x)) l) = len (flat_map f l).
Proof.
  induction l as [|x l IH]; cbn [map flat_map].
  - reflexivity.
  - rewrite sum_cons, len_app, IH. reflexivity.
Qed.

Lemma g2p_aligned (text : str) : sum (snd (g2p text)) = len (fst (g2p text)).
Proof. rewrite g2p_eq. cbn [fst snd]. apply flat_map_len. Qed.

(** ** The claims on the Vietnamese module *)

(** C4.  [find_tone] maps every character of the word through the diacritic
    table, a table character to its base vowel and any other to itself; the
    tone is [1] when no character is in the table, and otherwise the tone of
    the last character of the word that is in the table.  On a single
    character, [find_tone] returns the table entry of a diacritic character,
    and returns any other character unchanged with tone [1]. *)
Theorem find_tone_spec :
  (forall word, fst (find_tone word) = flat_map detone_char word) /\
  (forall word,
      (forall c, In c word -> dict_get TONE_MAPPING [c] = None) ->
      snd (find_tone word) = py "1") /\
  (forall pre c post base tone,
      dict_get TONE_MAPPING [c] = Some (base, tone) ->
      (forall c', In c' post -> dict_get TONE_MAPPING [c'] = None) ->
      snd (find_tone (pre ++ c :: post)) = tone) /\
  (forall c base tone,
      dict_get TONE_MAPPING [c] = Some (base, tone) ->
      find_tone [c] = (base, tone)) /\
  (forall c, dict_get TONE_MAPPING [c] = None -> find_tone [c] = ([c], py "1")).
Proof.
  split; [exact find_tone_fst|].
  split; [intros word H; apply find_tone_fold_unmarked; exact H|].
  split; [intros pre c post base tone; apply find_tone_last_mark|].
  split.
  - intros c base tone H. unfold find_tone. cbn [fold_left].
    rewrite find_tone_step_eq. unfold detone_char. rewrite H. reflexivity.
  - intros c H. unfold find_tone. cbn [fold_left].
    rewrite find_tone_step_eq. unfold detone_char. rewrite H. reflexivity.
Qed.

(** C5.  [split_vietnamese_word] extracts the tone first; the initial is the
    longest member of the initials list that is a prefix of the de-toned
    word, or the empty string when no member is a prefix; the remainder is
    the candidate final, kept when it is in the finals vocabulary, and
    otherwise rewritten by the first of uo->ưo, ua->ưa, oi->ơi, ou->ơu whose
    result is a valid final, or kept as it is when none is. *)
Theorem split_vietnamese_word_spec (word : str) :
  exists initial rest,
    fst (find_tone word) = initial ++ rest /\
    ((In initial INITIALS /\
      forall i, In i INITIALS -> startswith (fst (find_tone word)) i = true ->
                (List.length i <= List.length initial)%nat)
     \/ (initial = [] /\
         forall i, In i INITIALS ->
                   startswith (fst (find_tone word)) i = false)) /\
    split_vietnamese_word word
    = (initial,
       (if in_list rest FINALS then rest
        else if in_list (replace rest (py "uo") (py "ưo")) FINALS
        then replace rest (py "uo") (py "ưo")
        else if in_list (replace rest (py "ua") (py "ưa")) FINALS
        then replace rest (py "ua") (py "ưa")
        else if in_list (replace rest (py "oi") (py "ơi")) FINALS
        then replace rest (py "oi") (py "ơi")
        else if in_list (replace rest (py "ou") (py "ơu")) FINALS
        then replace rest (py "ou") (py "ơu")
        else rest),
       snd (find_tone word)).
Proof. exact (split_vietnamese_word_shape word). Qed.

(** C6.  [g2p] emits, for every word of the normalized text in order, the
    tokens of [emitted_tokens]: a punctuation mark or special token verbatim
    with count 1; otherwise the non-empty initial and the non-empty final,
    each replaced by [UNK] outside its vocabulary, and the tone unless it is
    [1].  The alignment count of a word is the number of tokens emitted for
    it, between 0 and 3. *)
Theorem g2p_per_word (text : str) :
  g2p text
  = (flat_map emitted_tokens (split (text_normalize text)),
     map (fun w => len (emitted_tokens w)) (split (text_normalize text)))
  /\ (forall word,
        in_list word [py ","; py "."; py "!"; py "?"] = true \/
        in_list word SPECIAL = true ->
        emitted_tokens word = [word])
  /\ (forall word, (0 <= len (emitted_tokens word) <= 3)%Z).
Proof.
  split; [apply g2p_eq|]. split.
  - intros word H. unfold emitted_tokens.
    destruct H as [-> | ->]; [reflexivity | rewrite orb_true_r; reflexivity].
  - intros word. split; [unfold len; lia | apply emitted_tokens_at_most_3].
Qed.

(** C10.  The [word2ph] of [g2p] has one entry per whitespace-delimited word
    of the normalized text, and every entry is at least 1 and at most 3. *)
Theorem g2p_word2ph_entries (text : str) :
  List.length (snd (g2p text)) = List.length (split (text_normalize text)) /\
  Forall (fun n => (1 <= n <= 3)%Z) (snd (g2p text)).
Proof.
  rewrite g2p_eq. cbn [snd]. split; [apply length_map|].
  apply Forall_map. unfold split.
  eapply Forall_impl; [|apply split_from_nonempty].
  intros w Hw. cbv beta. split;
    [apply emitted_tokens_at_least_1; exact Hw | apply emitted_tokens_at_most_3].
Qed.

(** ** The dispatcher *)

Lemma bind_Ok_inv {A B} (r : result A) (k : A -> result B) (b : B) :
  bind r k = Ok b -> exists a, r = Ok a /\ k a = Ok b.
Proof. destruct r as [a|e]; simpl; [eauto | discriminate]. Qed.

Lemma dict_mem_keys {V} (d : dict V) (k : str) :
  dict_mem d k = in_list k (map fst d).
Proof.
  unfold dict_mem, in_list.
  induction d as [|[k' v] d IH]; cbn [dict_get map existsb fst].
  - reflexivity.
  - destruct (str_eqb k k'); [reflexivity | exact IH].
Qed.

Lemma validated_closed (symbols : list str) (phones : list str) :
  Forall (fun ph => In ph symbols \/ ph = py "UNK")
         (map (fun ph => if negb (in_list ph symbols) then py "UNK" else ph)
              phones).
Proof.
  apply Forall_map, Forall_forall. intros ph _. cbv beta.
  destruct (in_list ph symbols) eqn:E; cbn [negb].
  - left. apply in_list_In; exact E.
  - right; reflexivity.
Qed.

Lemma validated_map (symbols : list str) (phones : list str) :
  map (fun ph => if negb (in_list ph symbols) then py "UNK" else ph) phones
  = map (validated symbols) phones.
Proof.
  apply map_ext. intros ph. unfold validated.
  destruct (in_list ph symbols); reflexivity.
Qed.

(** Evaluation of the closed tests and lookups of [clean_text]. *)
Ltac compute_closed t :=
  let r := eval vm_compute in t in change t with r.

Ltac run_closed_step :=
  repeat match goal with
    | |- context [dict_mem ?d (py ?k)] => compute_closed (dict_mem d (py k))
    | |- context [str_eqb (py ?a) (py ?b)] =>
        compute_closed (str_eqb (py a) (py b))
    | |- context [in_list (py ?a) [py ?b; py ?c]] =>
        compute_closed (in_list (py a) [py b; py c])
    | |- context [dict_getitem ?d (py ?k)] =>
        compute_closed (dict_getitem d (py k))
    | |- context [import_text (_ :: _)] => unfold import_text
    | |- context [str_eqb ?x (py ?b)] =>
        lazymatch x with _ :: _ => compute_closed (str_eqb x (py b)) end
    end;
  cbn [negb andb orb bind global find].

Ltac run_closed := repeat (progress run_closed_step).

Ltac open_clean_text :=
  unfold clean_text, clean_text_in, active_symbols, active_registry,
    resolved_version in *;
  match goal with
  | |- context [str_eqb ?v (py "v1")] =>
      let E := fresh "Ev" in
      destruct (str_eqb v (py "v1")) eqn:E;
      try rewrite E in *
  end;
  cbv beta iota zeta.

(** [clean_text] on English text. *)
Lemma clean_text_in_en (clean_special : option clean_special_type)
    (text : str) (version : option str) (norm_text : str)
    (phones : list str) :
  module_normalize english text = Ok norm_text ->
  g2p_attr english norm_text = Ok (Phones phones) ->
  clean_text_in clean_special text (py "en") version
  = Ok (map (validated (active_symbols version))
            (if (len phones <? 4)%Z then py "," :: phones else phones),
        None, norm_text).
Proof.
  intros Hn Hg. unfold module_normalize in Hn.
  open_clean_text; run_closed.
  all: unfold special; cbn [find]; run_closed; rewrite !andb_false_r.
  all: run_closed; rewrite Hn; cbn [bind]; rewrite Hg; cbn [bind as_list app].
  all: rewrite validated_map; reflexivity.
Qed.

(** [clean_text] on Vietnamese text. *)
Lemma clean_text_in_vi (clean_special : option clean_special_type)
    (text : str) (version : option str) :
  clean_text_in clean_special text (py "vi") version
  = Ok (map (validated (active_symbols version))
            (fst (g2p (text_normalize text))),
        Some (snd (g2p (text_normalize text))),
        text_normalize text).
Proof.
  open_clean_text; run_closed.
  all: unfold special; cbn [find]; run_closed; rewrite !andb_false_r.
  all: run_closed; cbn [vietnamese text_normalize_attr g2p_attr bind].
  all: pose proof (g2p_aligned (text_normalize text)) as Ha.
  all: destruct (g2p (text_normalize text)) as [phonemes word2ph].
  all: cbn [fst snd bind unpack_pair] in *.
  all: rewrite Ha, Z.eqb_refl; cbn [py_assert bind].
  all: rewrite validated_map; reflexivity.
Qed.

(** [clean_text] on a language outside the registry. *)
Lemma clean_text_in_fallback (clean_special : option clean_special_type)
    (text language : str) (version : option str) :
  in_list language (active_registry version) = false ->
  clean_text_in clean_special text language version
  = clean_text_in clean_special (py " ") (py "en") version.
Proof.
  intros H. open_clean_text.
  all: rewrite dict_mem_keys; cbn [map fst]; rewrite H; run_closed.
  all: reflexivity.
Qed.

(** [clean_text] on Chinese text: the markers of [special] are tried in the
    order of the list, before any strategy, and the first one that occurs in
    the text sends the call to the global name [clean_special]. *)
Lemma clean_text_in_special (clean_special : option clean_special_type)
    (text : str) (version : option str) :
  (contains text (py "￥") = true ->
   clean_text_in clean_special text (py "zh") version
   = (f <- global (py "clean_special") clean_special ;;
      f text (py "zh") (py "￥") (py "SP2") (resolved_version version))) /\
  (contains text (py "￥") = false -> contains text (py "^") = true ->
   clean_text_in clean_special text (py "zh") version
   = (f <- global (py "clean_special") clean_special ;;
      f text (py "zh") (py "^") (py "SP3") (resolved_version version))).
Proof.
  split; [intros H1 | intros H1 H2].
  all: open_clean_text; run_closed.
  all: unfold special; cbn [find]; rewrite ?H1, ?H2; run_closed.
  all: reflexivity.
Qed.

(** ** The claims on normalization and on the dispatcher *)

(** C7, at the input ["a @ b"].  Under any interpreter tables that agree with
    CPython on ASCII, the last substitution of [text_normalize] deletes the
    [@] after the whitespace was collapsed and leaves two blanks side by
    side, which a second normalization collapses: normalizing twice differs
    from normalizing once. *)
Theorem text_normalize_not_idempotent :
  (forall s, Forall (fun c => c < 128) s -> lower s = latin_lower s) ->
  (forall c, c < 128 -> isalnum c = latin_isalnum c) ->
  text_normalize (py "a @ b") = py "a  b" /\
  text_normalize (text_normalize (py "a @ b")) = py "a b" /\
  text_normalize (text_normalize (py "a @ b")) <> text_normalize (py "a @ b").
Proof.
  intros Hl Ha.
  assert (E1 : text_normalize (py "a @ b") = py "a  b").
  { unfold text_normalize.
    change (re_sub_runs isspace (py " ") (strip (py "a @ b")))
      with (py "a @ b").
    rewrite Hl by (repeat constructor).
    unfold re_delete_outside, is_allowed, is_word.
    change (re_sub_runs is_separator_punct (py ",") (latin_lower (py "a @ b")))
      with [97; 32; 64; 32; 98].
    cbn [filter]. rewrite !Ha by reflexivity. reflexivity. }
  assert (E2 : text_normalize (py "a  b") = py "a b").
  { unfold text_normalize.
    change (re_sub_runs isspace (py " ") (strip (py "a  b")))
      with (py "a b").
    rewrite Hl by (repeat constructor).
    unfold re_delete_outside, is_allowed, is_word.
    change (re_sub_runs is_separator_punct (py ",") (latin_lower (py "a b")))
      with [97; 32; 98].
    cbn [filter]. rewrite !Ha by reflexivity. reflexivity. }
  rewrite E1, E2. repeat split. discriminate.
Qed.

(** C1.  For every text the Vietnamese [g2p] returns phonemes and alignment
    counts with [sum(word2ph) == len(phonemes)]; so [clean_text] for the
    language [vi] passes its assertion and returns. *)
Theorem vietnamese_alignment :
  (forall text, sum (snd (g2p text)) = len (fst (g2p text))) /\
  (forall text version,
      exists phones word2ph norm_text,
        clean_text text (py "vi") version
        = Ok (phones, Some word2ph, norm_text) /\
        sum word2ph = len phones).
Proof.
  split; [exact g2p_aligned|].
  intros text version. unfold clean_text. rewrite clean_text_in_vi.
  eexists _, _, _. split; [reflexivity|].
  rewrite g2p_aligned. unfold len. rewrite length_map. reflexivity.
Qed.

(** C2.  Whatever [clean_text] returns, its phonemes are the result of the
    symbol validation, applied as the last step: every token is a member of
    the active symbol table or is [UNK]. *)
Theorem clean_text_symbol_closure (text language : str) (version : option str)
    (phones : list str) (word2ph : option (list Z)) (norm_text : str) :
  clean_text text language version = Ok (phones, word2ph, norm_text) ->
  (exists raw, phones = map (validated (active_symbols version)) raw) /\
  Forall (fun ph => In ph (active_symbols version) \/ ph = py "UNK") phones.
Proof.
  intros H. open_clean_text; cbv beta iota zeta in H.
  all: match type of H with
       | context [if ?c then _ else _] => destruct c
       end; cbv beta iota zeta in H.
  all: match type of H with
       | context [find ?f special] =>
           destruct (find f special) as [[[special_s special_l] target]|]
       end; [cbn [global bind] in H; discriminate H|].
  all: apply bind_Ok_inv in H; destruct H as (module_name & _ & H).
  all: apply bind_Ok_inv in H; destruct H as (language_module & _ & H).
  all: apply bind_Ok_inv in H; destruct H as (norm & _ & H).
  all: apply bind_Ok_inv in H; destruct H as ([raw w] & _ & H).
  all: injection H as <- _ _; split;
    [exists raw; apply validated_map | apply validated_closed].
Qed.

(** C3, amended.  For the language [en], when the strategy's [g2p] returns
    fewer than 4 phonemes [clean_text] prepends one comma token; the sequence
    returned (with [word2ph] absent) has one token more than the [g2p]
    output, and so at least 4 tokens whenever the output has at least 3. *)
Theorem clean_text_en_padding (text : str) (version : option str)
    (norm_text : str) (phones : list str) :
  module_normalize english text = Ok norm_text ->
  g2p_attr english norm_text = Ok (Phones phones) ->
  exists returned,
    clean_text text (py "en") version = Ok (returned, None, norm_text) /\
    returned = map (validated (active_symbols version))
                   (if (len phones <? 4)%Z then py "," :: phones else phones) /\
    ((len phones < 4)%Z -> len returned = (len phones + 1)%Z) /\
    ((3 <= len phones)%Z -> (4 <= len returned)%Z).
Proof.
  intros Hn Hg. eexists. split; [|split; [reflexivity|]].
  - unfold clean_text. apply clean_text_in_en; assumption.
  - unfold len. rewrite length_map. fold (len phones).
    destruct (len phones <? 4)%Z eqn:E.
    + apply Z.ltb_lt in E. unfold len in *. cbn [List.length]. lia.
    + apply Z.ltb_ge in E. unfold len in *. lia.
Qed.

(** C8.  A language outside the registry of the version in force is handled
    as the language [en] on the text [" "]: the call is the call
    [clean_text(" ", "en", version)], and it returns whenever the English
    strategy returns on that text. *)
Theorem clean_text_unknown_language (text language : str)
    (version : option str) :
  in_list language (active_registry version) = false ->
  clean_text text language version = clean_text (py " ") (py "en") version /\
  (forall norm_text phones,
      module_normalize english (py " ") = Ok norm_text ->
      g2p_attr english norm_text = Ok (Phones phones) ->
      clean_text text language version
      = Ok (map (validated (active_symbols version))
                (if (len phones <? 4)%Z then py "," :: phones else phones),
            None, norm_text)).
Proof.
  intros H. unfold clean_text. split.
  - apply clean_text_in_fallback; exact H.
  - intros norm_text phones Hn Hg.
    rewrite (clean_text_in_fallback None text language version H).
    apply clean_text_in_en; assumption.
Qed.

(** C9, on the code as it is.  When the marker of a triple of [special]
    occurs in the text and the language is the triple's language,
    [clean_text] leaves the strategy path for a call of [clean_special]; the
    module binds no such name, and the call raises [NameError]. *)
Theorem clean_text_special_unbound (text : str) (version : option str)
    (special_s special_l target_symbol : str) :
  In (special_s, special_l, target_symbol) special ->
  contains text special_s = true ->
  clean_text text special_l version = Raise (NameError (py "clean_special")).
Proof.
  intros Hin Hc. unfold special in Hin. cbn [In] in Hin.
  destruct (clean_text_in_special None text version) as [First Second].
  unfold clean_text.
  destruct Hin as [E | [E | []]]; injection E as <- <- <-.
  - rewrite (First Hc). reflexivity.
  - destruct (contains text (py "￥")) eqn:E1.
    + rewrite (First eq_refl). reflexivity.
    + rewrite (Second eq_refl Hc). reflexivity.
Qed.

(** ** Further properties of the Vietnamese module *)

Lemma table_entries_wellformed :
  forallb (fun e =>
             match fst (snd e) with
             | [b] =>
                 match dict_get TONE_MAPPING [b] with
                 | None => in_list (snd (snd e)) TONES
                 | Some _ => false
                 end
             | _ => false
             end) TONE_MAPPING = true.
Proof. vm_compute. reflexivity. Qed.

Lemma table_entry (c : char) (base tone : str) :
  dict_get TONE_MAPPING [c] = Some (base, tone) ->
  exists b, base = [b] /\ dict_get TONE_MAPPING [b] = None /\ In tone TONES.
Proof.
  intros H. apply dict_get_In in H.
  pose proof table_entries_wellformed as A.
  rewrite forallb_forall in A. apply A in H. cbn [fst snd] in H.
  destruct base as [|b [|b' base]]; try discriminate H.
  exists b. destruct (dict_get TONE_MAPPING [b]); [discriminate H|].
  repeat split. apply in_list_In; exact H.
Qed.

Lemma detone_char_single (c : char) :
  exists b, detone_char c = [b] /\ dict_get TONE_MAPPING [b] = None.
Proof.
  unfold detone_char.
  destruct (dict_get TONE_MAPPING [c]) as [[base tone]|] eqn:E.
  - destruct (table_entry _ _ _ E) as (b & -> & Hb & _). eauto.
  - eauto.
Qed.

Lemma find_tone_fold_tone (w : str) : forall r t,
  In t TONES -> In (snd (fold_left find_tone_step w (r, t))) TONES.
Proof.
  induction w as [|c w IH]; intros r t Ht; cbn [fold_left].
  - exact Ht.
  - rewrite find_tone_step_eq. apply IH.
    destruct (dict_get TONE_MAPPING [c]) as [[base tone]|] eqn:E;
      [|exact Ht].
    destruct (table_entry _ _ _ E) as (_ & _ & _ & H). exact H.
Qed.

Lemma find_tone_tone (word : str) : In (snd (find_tone word)) TONES.
Proof. apply find_tone_fold_tone. left; reflexivity. Qed.

Lemma find_tone_unmarked (word : str) :
  (forall c, In c word -> dict_get TONE_MAPPING [c] = None) ->
  find_tone word = (word, py "1").
Proof.
  intros H. rewrite (surjective_pairing (find_tone word)).
  rewrite find_tone_fst. unfold find_tone.
  rewrite (find_tone_fold_unmarked word H). f_equal.
  induction word as [|c w IH]; cbn [flat_map]; [reflexivity|].
  unfold detone_char at 1. rewrite (H c (or_introl eq_refl)).
  cbn [app]. f_equal. apply IH. intros c' Hc'. apply H. right; exact Hc'.
Qed.

Lemma detoned_unmarked (word : str) (c : char) :
  In c (flat_map detone_char word) -> dict_get TONE_MAPPING [c] = None.
Proof.
  rewrite in_flat_map. intros (c0 & _ & Hc).
  destruct (detone_char_single c0) as (b & E & Hb).
  rewrite E in Hc. destruct Hc as [<- | []]. exact Hb.
Qed.

(** X1.  [find_tone] keeps the length of the word: every character, marked
    or not, becomes exactly one character. *)
Theorem find_tone_length (word : str) :
  List.length (fst (find_tone word)) = List.length word.
Proof.
  rewrite find_tone_fst.
  induction word as [|c w IH]; cbn [flat_map]; [reflexivity|].
  destruct (detone_char_single c) as (b & -> & _).
  cbn [app List.length]. rewrite IH. reflexivity.
Qed.

(** X2.  The tone [find_tone] returns is always one of the six tones of
    [TONES]. *)
Theorem find_tone_in_TONES (word : str) : In (snd (find_tone word)) TONES.
Proof. exact (find_tone_tone word). Qed.

(** X3.  A de-toned word holds no character of the diacritic table: applying
    [find_tone] to it again returns it unchanged, with tone [1]. *)
Theorem find_tone_idempotent (word : str) :
  find_tone (fst (find_tone word)) = (fst (find_tone word), py "1").
Proof.
  apply find_tone_unmarked. intros c Hc.
  rewrite find_tone_fst in Hc. exact (detoned_unmarked word c Hc).
Qed.

(** X4.  A word none of whose characters is in the diacritic table is
    returned unchanged, with tone [1]. *)
Theorem find_tone_plain_word (word : str) :
  (forall c, In c word -> dict_get TONE_MAPPING [c] = None) ->
  find_tone word = (word, py "1").
Proof. exact (find_tone_unmarked word). Qed.

Lemma contains_startswith (s p : str) :
  startswith s p = true -> contains s p = true.
Proof. intros H. destruct s; cbn [contains]; rewrite H; reflexivity. Qed.

Lemma contains_cons (c : char) (s p : str) :
  contains s p = true -> contains (c :: s) p = true.
Proof. intros H. cbn [contains]. rewrite H. apply orb_true_r. Qed.

Lemma startswith_length (s p : str) :
  startswith s p = true -> (List.length p <= List.length s)%nat.
Proof.
  intros H. apply startswith_app in H. destruct H as [r ->].
  rewrite length_app. lia.
Qed.

(** A replacement either leaves the string as it is or puts [new] in it. *)
Lemma replace_from_cases (old new s : str) : forall skip,
  replace_from old new s skip = skipn skip s \/
  contains (replace_from old new s skip) new = true.
Proof.
  induction s as [|c s IH]; intros skip.
  - left. destruct skip; reflexivity.
  - cbn [replace_from]. destruct skip as [|k].
    + destruct (startswith (c :: s) old).
      * right. apply contains_startswith, startswith_app. eauto.
      * destruct (IH O) as [E | E].
        -- left. rewrite E. reflexivity.
        -- right. apply contains_cons; exact E.
    + destruct (IH k) as [E | E]; [left; exact E | right; exact E].
Qed.

Lemma replace_cases (s old new : str) :
  replace s old new = s \/ contains (replace s old new) new = true.
Proof. exact (replace_from_cases old new s O). Qed.

Lemma replace_from_length (old new s : str) :
  old <> [] -> List.length old = List.length new ->
  forall skip,
    List.length (replace_from old new s skip) = (List.length s - skip)%nat.
Proof.
  intros Hold Hlen. induction s as [|c s IH]; intros skip.
  - reflexivity.
  - cbn [replace_from]. destruct skip as [|k].
    + destruct (startswith (c :: s) old) eqn:E.
      * apply startswith_length in E. cbn [List.length] in *.
        rewrite length_app, IH.
        destruct old; [congruence | cbn [List.length] in *; lia].
      * cbn [List.length]. rewrite IH. lia.
    + rewrite IH. reflexivity.
Qed.

Lemma replace_length (s old new : str) :
  old <> [] -> List.length old = List.length new ->
  List.length (replace s old new) = List.length s.
Proof.
  intros Hold Hlen. unfold replace.
  rewrite replace_from_length by assumption. lia.
Qed.

(** A rewrite to a pair of letters that no final holds turns no string
    outside the finals into a final. *)
Lemma rewrite_never_valid (x old new : str) :
  forallb (fun f => negb (contains f new)) FINALS = true ->
  in_list x FINALS = false ->
  in_list (replace x old new) FINALS = false.
Proof.
  intros A Hx. rewrite forallb_forall in A.
  destruct (replace_cases x old new) as [-> | C]; [exact Hx|].
  destruct (in_list (replace x old new) FINALS) eqn:E; [|reflexivity].
  apply in_list_In, A in E. rewrite C in E. discriminate E.
Qed.

(** The finals that hold the letters a rewrite produces. *)
Lemma finals_with (new a b : str) (r : str) :
  forallb (fun f => negb (contains f new) || str_eqb f a || str_eqb f b)
          FINALS = true ->
  in_list r FINALS = true -> contains r new = true -> r = a \/ r = b.
Proof.
  intros A Hr C. rewrite forallb_forall in A.
  apply in_list_In, A in Hr. rewrite C in Hr. cbn [negb orb] in Hr.
  apply orb_true_iff in Hr. destruct Hr as [E | E]; apply str_eqb_eq in E; auto.
Qed.

Ltac split_eqb :=
  repeat match goal with
    | |- context [N.eqb ?a ?k] => destruct (N.eqb_spec a k); [subst a|]
    end.

(** Closes the cases of an equation [E] between a rewritten string of
    symbolic letters and a concrete final, [Hx] saying that the string is no
    final. *)
Ltac close_rewrite_case E Hx :=
  vm_compute in E; try discriminate E;
  try (injection E; intros; subst);
  first [ vm_compute in Hx; discriminate Hx | reflexivity | congruence ].

Lemma rewrite_oi (x : str) :
  in_list x FINALS = false ->
  in_list (replace x (py "oi") (py "ơi")) FINALS = true ->
  x = py "ưoi".
Proof.
  intros Hx Hr.
  assert (L : List.length (replace x (py "oi") (py "ơi")) = List.length x)
    by (apply replace_length; [discriminate | reflexivity]).
  destruct (replace_cases x (py "oi") (py "ơi")) as [E | C];
    [rewrite E in Hr; congruence|].
  destruct (finals_with (py "ơi") (py "ơi") (py "ươi") _ eq_refl Hr C)
    as [E | E]; rewrite E in L; clear Hr C.
  - destruct x as [|a [|b [|c x]]]; try discriminate L.
    revert E. unfold replace. change (py "oi") with [111; 105].
    cbn [replace_from startswith List.length pred app andb].
    split_eqb; cbn [andb app replace_from]; intros E.
    all: close_rewrite_case E Hx.
  - destruct x as [|a [|b [|c [|d x]]]]; try discriminate L.
    revert E. unfold replace. change (py "oi") with [111; 105].
    cbn [replace_from startswith List.length pred app andb].
    split_eqb; cbn [andb app replace_from startswith]; intros E.
    all: close_rewrite_case E Hx.
Qed.

Lemma rewrite_ou (x : str) :
  in_list x FINALS = false ->
  in_list (replace x (py "ou") (py "ơu")) FINALS = true ->
  x = py "ưou".
Proof.
  intros Hx Hr.
  assert (L : List.length (replace x (py "ou") (py "ơu")) = List.length x)
    by (apply replace_length; [discriminate | reflexivity]).
  destruct (replace_cases x (py "ou") (py "ơu")) as [E | C];
    [rewrite E in Hr; congruence|].
  destruct (finals_with (py "ơu") (py "ươu") (py "ươu") _ eq_refl Hr C)
    as [E | E]; rewrite E in L; clear Hr C.
  all: destruct x as [|a [|b [|c [|d x]]]]; try discriminate L.
  all: revert E; unfold replace; change (py "ou") with [111; 117].
  all: cbn [replace_from startswith List.length pred app andb].
  all: split_eqb; cbn [andb app replace_from startswith]; intros E.
  all: close_rewrite_case E Hx.
Qed.

Lemma finals_without_uo :
  forallb (fun f => negb (contains f (py "ưo"))) FINALS = true.
Proof. vm_compute. reflexivity. Qed.

Lemma finals_without_ua :
  forallb (fun f => negb (contains f (py "ưa"))) FINALS = true.
Proof. vm_compute. reflexivity. Qed.

Lemma find_closest_final_shape (x : str) :
  find_closest_final x = x \/
  (x = py "ưoi" /\ find_closest_final x = py "ươi") \/
  (x = py "ưou" /\ find_closest_final x = py "ươu").
Proof.
  unfold find_closest_final.
  destruct (in_list x FINALS) eqn:Hx; [left; reflexivity|].
  cbn [find].
  rewrite (rewrite_never_valid x _ _ finals_without_uo Hx).
  rewrite (rewrite_never_valid x _ _ finals_without_ua Hx).
  destruct (in_list (replace x (py "oi") (py "ơi")) FINALS) eqn:E3.
  - right; left. apply (rewrite_oi x Hx) in E3. subst x.
    split; [reflexivity | vm_compute; reflexivity].
  - destruct (in_list (replace x (py "ou") (py "ơu")) FINALS) eqn:E4.
    + right; right. apply (rewrite_ou x Hx) in E4. subst x.
      split; [reflexivity | vm_compute; reflexivity].
    + left; reflexivity.
Qed.

Lemma repaired_final_closest (x : str) :
  repaired_final x = find_closest_final x.
Proof.
  unfold repaired_final, find_closest_final.
  destruct (in_list x FINALS); [reflexivity|]. cbn [find].
  destruct (in_list (replace x (py "uo") (py "ưo")) FINALS); [reflexivity|].
  destruct (in_list (replace x (py "ua") (py "ưa")) FINALS); [reflexivity|].
  destruct (in_list (replace x (py "oi") (py "ơi")) FINALS); [reflexivity|].
  destruct (in_list (replace x (py "ou") (py "ơu")) FINALS); reflexivity.
Qed.


(** X6.  The first two transformations of [find_closest_final], uo->ưo and
    ua->ưa, never give a valid final: no member of [FINALS] holds the letters
    they write. *)
Theorem first_rewrites_never_valid (final : str) :
  in_list final FINALS = false ->
  in_list (replace final (py "uo") (py "ưo")) FINALS = false /\
  in_list (replace final (py "ua") (py "ưa")) FINALS = false.
Proof.
  intros H. split.
  - exact (rewrite_never_valid final _ _ finals_without_uo H).
  - exact (rewrite_never_valid final _ _ finals_without_ua H).
Qed.

(** X7.  [find_closest_final] is idempotent. *)
Theorem find_closest_final_idempotent (final : str) :
  find_closest_final (find_closest_final final) = find_closest_final final.
Proof.
  destruct (find_closest_final_shape final) as [E | [[_ E] | [_ E]]];
    rewrite E; [exact E | vm_compute; reflexivity | vm_compute; reflexivity].
Qed.

(** X8.  The initial [split_vietnamese_word] returns is empty or a member of
    [INITIALS], so the [UNK] replacement of the initial in [g2p] never
    applies; the tone is one of [TONES]. *)
Theorem split_vietnamese_word_initial_tone (word : str) :
  let '(initial, _, tone) := split_vietnamese_word word in
  (initial = [] \/ In initial INITIALS) /\
  (truthy initial = true -> in_list initial INITIALS = true) /\
  In tone TONES.
Proof.
  destruct (split_vietnamese_word_shape word)
    as (initial & rest & _ & Hi & ->).
  split; [|split].
  - destruct Hi as [[H _] | [H _]]; auto.
  - destruct Hi as [[H _] | [-> _]]; [|discriminate].
    intros _. apply in_list_In; exact H.
  - apply find_tone_tone.
Qed.

(** X9.  The initial and the final of [split_vietnamese_word] spell the
    de-toned word, unless the final was repaired, which happens only for the
    remainders [ưoi] (final [ươi]) and [ưou] (final [ươu]). *)
Theorem split_vietnamese_word_reassembles (word : str) :
  let '(initial, final, _) := split_vietnamese_word word in
  initial ++ final = fst (find_tone word) \/
  (initial ++ py "ưoi" = fst (find_tone word) /\ final = py "ươi") \/
  (initial ++ py "ưou" = fst (find_tone word) /\ final = py "ươu").
Proof.
  destruct (split_vietnamese_word_shape word)
    as (initial & rest & Hd & _ & ->).
  rewrite repaired_final_closest, Hd.
  destruct (find_closest_final_shape rest) as [E | [[-> E] | [-> E]]];
    rewrite E; auto.
Qed.

Lemma emitted_tokens_vocabulary (word : str) :
  Forall (fun ph => In ph g2p_vocabulary) (emitted_tokens word).
Proof.
  assert (One : forall ph, In ph g2p_vocabulary ->
                           Forall (fun ph => In ph g2p_vocabulary) [ph])
    by (intros ph H; constructor; [exact H | constructor]).
  assert (U : In (py "UNK") g2p_vocabulary)
    by (apply in_list_In; reflexivity).
  unfold emitted_tokens.
  destruct (in_list word [py ","; py "."; py "!"; py "?"]) eqn:P;
    cbn [orb].
  { apply in_list_In in P. apply One. unfold g2p_vocabulary.
    rewrite !in_app_iff. auto. }
  destruct (in_list word SPECIAL) eqn:S.
  { apply in_list_In in S. apply One. unfold g2p_vocabulary.
    rewrite !in_app_iff. auto. }
  destruct (split_vietnamese_word_shape word)
    as (initial & rest & _ & _ & ->).
  apply Forall_app; split; [|apply Forall_app; split].
  - destruct (truthy initial); [|constructor].
    destruct (in_list initial INITIALS) eqn:E; apply One; [|exact U].
    apply in_list_In in E. unfold g2p_vocabulary.
    rewrite !in_app_iff. auto.
  - destruct (truthy (repaired_final rest)); [|constructor].
    destruct (in_list (repaired_final rest) FINALS) eqn:E;
      apply One; [|exact U].
    apply in_list_In in E. unfold g2p_vocabulary.
    rewrite !in_app_iff. auto 6.
  - destruct (str_eqb (snd (find_tone word)) (py "1")) eqn:E; [constructor|].
    apply One. unfold g2p_vocabulary. rewrite !in_app_iff. do 4 right.
    pose proof (find_tone_tone word) as T. unfold TONES in T.
    destruct T as [T | T]; [|exact T].
    rewrite <- T, str_eqb_refl in E. discriminate E.
Qed.

Lemma g2p_vocabulary_closed (text : str) :
  Forall (fun ph => In ph g2p_vocabulary) (fst (g2p text)).
Proof.
  rewrite g2p_eq. cbn [fst]. apply Forall_flat_map, Forall_forall.
  intros w _. apply emitted_tokens_vocabulary.
Qed.

(** X10.  Every phoneme [g2p] returns is a punctuation mark, a special
    token, an initial, a final or one of the tones 2 to 6; the tone [1] is
    never among them. *)
Theorem g2p_tokens_in_vocabulary (text : str) :
  Forall (fun ph => In ph g2p_vocabulary) (fst (g2p text)) /\
  ~ In (py "1") (fst (g2p text)).
Proof.
  pose proof (g2p_vocabulary_closed text) as A.
  split; [exact A|].
  intros H. rewrite Forall_forall in A. apply A, in_list_In in H.
  vm_compute in H. discriminate H.
Qed.

Lemma lstrip_blank (s : str) :
  Forall (fun c => isspace c = true) s -> lstrip s = [].
Proof.
  induction 1 as [|c s Hc _ IH]; cbn [lstrip]; [reflexivity|].
  rewrite Hc. exact IH.
Qed.

Lemma text_normalize_blank (text : str) :
  Forall (fun c => isspace c = true) text -> lower [] = [] ->
  text_normalize text = [].
Proof.
  intros Hb Hl. unfold text_normalize, strip.
  rewrite (lstrip_blank text Hb).
  change (re_sub_runs isspace (py " ") (rstrip [])) with (@nil char).
  rewrite Hl. reflexivity.
Qed.

(** X11.  On a text of whitespace only (the empty text included), when
    [lower] maps the empty string to itself, [g2p] returns no phoneme and no
    count, and [clean_text] for the language [vi] returns empty phonemes,
    an empty [word2ph] and the empty normalized text: nothing is padded as it
    is for [en]. *)
Theorem g2p_blank (text : str) (version : option str) :
  Forall (fun c => isspace c = true) text -> lower [] = [] ->
  g2p text = ([], []) /\
  clean_text text (py "vi") version = Ok ([], Some [], []).
Proof.
  intros Hb Hl.
  assert (G : forall t, Forall (fun c => isspace c = true) t ->
                        g2p t = ([], [])).
  { intros t Ht. unfold g2p. rewrite (text_normalize_blank t Ht Hl).
    reflexivity. }
  split; [exact (G text Hb)|].
  unfold clean_text. rewrite clean_text_in_vi.
  rewrite (text_normalize_blank text Hb Hl), (G [] (Forall_nil _)).
  reflexivity.
Qed.

(** X12.  When the active symbol table holds the whole vocabulary of [g2p],
    the symbol validation changes nothing: [clean_text] for the language
    [vi] returns the phonemes and counts of [g2p] on the normalized text. *)
Theorem clean_text_vi_unchanged (text : str) (version : option str) :
  (forall ph, In ph g2p_vocabulary -> In ph (active_symbols version)) ->
  clean_text text (py "vi") version
  = Ok (fst (g2p (text_normalize text)),
        Some (snd (g2p (text_normalize text))),
        text_normalize text).
Proof.
  intros Hs. unfold clean_text. rewrite clean_text_in_vi.
  do 3 f_equal. rewrite <- (map_id (fst (g2p (text_normalize text)))) at 2.
  apply map_ext_in. intros ph Hph. unfold validated.
  pose proof (g2p_vocabulary_closed (text_normalize text)) as A.
  rewrite Forall_forall in A. apply A, Hs, in_list_In in Hph.
  rewrite Hph. reflexivity.
Qed.

(** ** Further properties of the dispatcher *)

(** X13.  For the plain class, [ja] in both versions and [ko] in versions
    other than [v1], [clean_text] returns the validated phonemes of the
    strategy with [word2ph] absent: nothing is asserted and nothing is
    padded, however short the phoneme list is. *)
Theorem clean_text_plain_class (text : str) (version : option str)
    (norm_text : str) (phones : list str) :
  (module_normalize japanese text = Ok norm_text ->
   g2p_attr japanese norm_text = Ok (Phones phones) ->
   clean_text text (py "ja") version
   = Ok (map (validated (active_symbols version)) phones, None, norm_text)) /\
  (str_eqb (resolved_version version) (py "v1") = false ->
   module_normalize korean text = Ok norm_text ->
   g2p_attr korean norm_text = Ok (Phones phones) ->
   clean_text text (py "ko") version
   = Ok (map (validated (active_symbols version)) phones, None, norm_text)).
Proof.
  split; [intros Hn Hg | intros Hv Hn Hg]; unfold module_normalize in Hn.
  all: open_clean_text; try discriminate Hv; run_closed.
  all: unfold special; cbn [find]; run_closed; rewrite !andb_false_r.
  all: run_closed; rewrite Hn; cbn [bind]; rewrite Hg; cbn [bind as_list].
  all: rewrite validated_map; reflexivity.
Qed.

(** X14.  For [zh], on a text that holds neither special marker,
    [clean_text] returns the validated phonemes, the counts and the
    normalized text exactly when [len(phones) == sum(word2ph)] and
    [len(norm_text) == len(word2ph)]; when either fails it raises
    [AssertionError].  The strategy is [chinese] for [v1] and [chinese2]
    otherwise. *)
Theorem clean_text_zh_strict (text : str) (version : option str)
    (norm_text : str) (phones : list str) (word2ph : list Z) :
  contains text (py "￥") = false ->
  contains text (py "^") = false ->
  let language_module :=
    if str_eqb (resolved_version version) (py "v1")
    then chinese else chinese2 in
  module_normalize language_module text = Ok norm_text ->
  g2p_attr language_module norm_text = Ok (PhonesWord2ph phones word2ph) ->
  clean_text text (py "zh") version
  = if ((len phones =? sum word2ph) && (len norm_text =? len word2ph))%Z
    then Ok (map (validated (active_symbols version)) phones,
             Some word2ph, norm_text)
    else Raise AssertionError.
Proof.
  intros H1 H2 language_module Hn Hg. subst language_module.
  unfold module_normalize in Hn.
  open_clean_text; run_closed.
  all: unfold special; cbn [find]; rewrite H1, H2; run_closed.
  all: rewrite Hn; cbn [bind]; rewrite Hg; cbn [bind unpack_pair].
  all: destruct (len phones =? sum word2ph)%Z; cbn [py_assert bind andb];
    [|reflexivity].
  all: destruct (len norm_text =? len word2ph)%Z; cbn [py_assert bind];
    [|reflexivity].
  all: rewrite validated_map; reflexivity.
Qed.


(** X16.  A call without a version is the call with the version of the
    environment, or [v2] when the environment has none; and every version
    other than [v1] gives the result of [v2]. *)
Theorem clean_text_version (text language : str) (version : option str) :
  clean_text text language version
  = clean_text text language (Some (resolved_version version)) /\
  (str_eqb (resolved_version version) (py "v1") = false ->
   clean_text text language version
   = clean_text text language (Some (py "v2"))).
Proof.
  split; [reflexivity|]. intros Hv.
  unfold clean_text, clean_text_in. fold (resolved_version version).
  rewrite Hv. change (str_eqb (py "v2") (py "v1")) with false.
  cbv beta iota zeta.
  match goal with
  | |- context [if ?c then _ else _] => destruct c
  end; cbv beta iota zeta.
  all: match goal with
       | |- context [find ?f special] =>
           destruct (find f special) as [[[special_s special_l] target]|]
       end; reflexivity.
Qed.

(** X17.  An error of the strategy's [g2p] goes through [clean_text]
    unchanged: for the language [en], when the English [g2p] raises [e] on
    the normalized text, so does [clean_text]. *)
Theorem clean_text_en_propagates (text : str) (version : option str)
    (norm_text : str) (e : exn) :
  module_normalize english text = Ok norm_text ->
  g2p_attr english norm_text = Raise e ->
  clean_text text (py "en") version = Raise e.
Proof.
  intros Hn Hg. unfold module_normalize in Hn.
  open_clean_text; run_closed.
  all: unfold special; cbn [find]; run_closed; rewrite !andb_false_r.
  all: run_closed; rewrite Hn; cbn [bind]; rewrite Hg; reflexivity.
Qed.

(** ** Further properties of the normalization *)

Lemma lstrip_app_blank (a s : str) :
  Forall (fun c => isspace c = true) a -> lstrip (a ++ s) = lstrip s.
Proof.
  induction 1 as [|c a Hc _ IH]; cbn [app lstrip]; [reflexivity|].
  rewrite Hc. exact IH.
Qed.

Lemma rstrip_app_blank (s b : str) :
  Forall (fun c => isspace c = true) b -> rstrip (s ++ b) = rstrip s.
Proof.
  intros Hb. unfold rstrip. rewrite rev_app_distr, lstrip_app_blank;
    [reflexivity | apply Forall_rev; exact Hb].
Qed.

Lemma strip_app_blank (a s b : str) :
  Forall (fun c => isspace c = true) a ->
  Forall (fun c => isspace c = true) b ->
  strip (a ++ s ++ b) = strip s.
Proof.
  intros Ha Hb. unfold strip. rewrite (lstrip_app_blank a _ Ha).
  induction s as [|c s IH]; cbn [app lstrip].
  - rewrite (lstrip_blank b Hb). reflexivity.
  - destruct (isspace c); [exact IH|].
    exact (rstrip_app_blank (c :: s) b Hb).
Qed.

(** X18.  Whitespace around a text does not change its normalization. *)
Theorem text_normalize_trims (before text after : str) :
  Forall (fun c => isspace c = true) before ->
  Forall (fun c => isspace c = true) after ->
  text_normalize (before ++ text ++ after) = text_normalize text.
Proof.
  intros Ha Hb. unfold text_normalize.
  rewrite (strip_app_blank before text after Ha Hb). reflexivity.
Qed.

(** X19.  When [isalnum] agrees with CPython on ASCII, a normalized text
    holds only characters the last substitution allows, and none of the
    separators [;], [:] and the two quotes. *)
Theorem text_normalize_chars (text : str) (c : char) :
  (forall a, a < 128 -> isalnum a = latin_isalnum a) ->
  In c (text_normalize text) ->
  is_allowed c = true /\ is_separator_punct c = false.
Proof.
  intros Ha Hc. unfold text_normalize, re_delete_outside in Hc.
  apply filter_In in Hc. destruct Hc as [_ Hc]. split; [exact Hc|].
  destruct (is_separator_punct c) eqn:S; [|reflexivity].
  unfold is_separator_punct in S. rewrite !orb_true_iff, !N.eqb_eq in S.
  unfold is_allowed, is_word in Hc.
  destruct S as [[[-> | ->] | ->] | ->];
    rewrite Ha in Hc by reflexivity; vm_compute in Hc; discriminate Hc.
Qed.

Lemma sub_runs_plain (cls : char -> bool) (repl w s : str) (b : bool) :
  Forall (fun c => cls c = false) w ->
  sub_runs cls repl (w ++ s) b
  = w ++ sub_runs cls repl s (match w with [] => b | _ :: _ => false end).
Proof.
  intros Hw. revert b. induction Hw as [|c w Hc _ IH]; intros b;
    cbn [app sub_runs]; [reflexivity|].
  rewrite Hc, IH. destruct w; reflexivity.
Qed.

Lemma sub_runs_none (cls : char -> bool) (repl s : str) (b : bool) :
  Forall (fun c => cls c = false) s -> sub_runs cls repl s b = s.
Proof.
  intros Hs. rewrite <- (app_nil_r s) at 1.
  rewrite sub_runs_plain by exact Hs. cbn [sub_runs]. apply app_nil_r.
Qed.

Lemma join_cons (sep w w' : str) (words : list str) :
  join sep (w :: w' :: words) = w ++ sep ++ join sep (w' :: words).
Proof. reflexivity. Qed.

Lemma join_Forall (P : char -> Prop) (sep : str) (words : list str) :
  Forall P sep -> Forall (Forall P) words -> Forall P (join sep words).
Proof.
  intros Hsep. induction 1 as [|w words Hw Hws IH]; [constructor|].
  destruct words as [|w' words]; [exact Hw|].
  rewrite join_cons. repeat (apply Forall_app; split); assumption.
Qed.

Lemma plain_char_spec (c : char) :
  plain_char c = true ->
  isspace c = false /\ is_separator_punct c = false /\ is_allowed c = true.
Proof.
  unfold plain_char. rewrite !andb_true_iff, !negb_true_iff. tauto.
Qed.

Lemma plain_word_Forall (P : char -> Prop) (words : list str) :
  (forall c, plain_char c = true -> P c) ->
  Forall (fun w => w <> [] /\ Forall (fun c => plain_char c = true) w) words ->
  Forall (Forall P) words.
Proof.
  intros HP. apply Forall_impl. intros w [_ Hw].
  eapply Forall_impl; [|exact Hw]. exact HP.
Qed.

Lemma sub_runs_join (words : list str) :
  Forall (fun w => w <> [] /\ Forall (fun c => plain_char c = true) w) words ->
  forall b, sub_runs isspace (py " ") (join (py " ") words) b
            = join (py " ") words.
Proof.
  induction 1 as [|w words [Hne Hw] Hws IH]; intros b; [reflexivity|].
  assert (Hsp : Forall (fun c => isspace c = false) w).
  { eapply Forall_impl; [|exact Hw]. intros c Hc.
    apply plain_char_spec in Hc. tauto. }
  destruct words as [|w' words].
  - apply sub_runs_none; exact Hsp.
  - rewrite join_cons, sub_runs_plain by exact Hsp.
    destruct w as [|c w]; [congruence|].
    change (py " " ++ join (py " ") (w' :: words))
      with (32 :: join (py " ") (w' :: words)).
    cbn [sub_runs]. change (isspace 32) with true. cbv iota.
    rewrite IH. reflexivity.
Qed.

Lemma lstrip_join (words : list str) :
  Forall (fun w => w <> [] /\ Forall (fun c => plain_char c = true) w) words ->
  lstrip (join (py " ") words) = join (py " ") words.
Proof.
  intros H. destruct H as [|w words [Hne Hw] _]; [reflexivity|].
  destruct w as [|c w]; [congruence|].
  apply Forall_inv, plain_char_spec in Hw. destruct Hw as [Hc _].
  destruct words; cbn [join app lstrip]; rewrite Hc; reflexivity.
Qed.

Lemma join_last (words : list str) :
  Forall (fun w => w <> [] /\ Forall (fun c => plain_char c = true) w) words ->
  words <> [] ->
  exists s c, join (py " ") words = s ++ [c] /\ isspace c = false.
Proof.
  induction 1 as [|w words [Hne Hw] Hws IH]; intros Hn;
    [exfalso; apply Hn; reflexivity|].
  destruct words as [|w' words].
  - destruct (exists_last Hne) as (s & c & ->). exists s, c.
    split; [reflexivity|].
    rewrite Forall_app in Hw. destruct Hw as [_ Hc].
    apply Forall_inv, plain_char_spec in Hc. tauto.
  - destruct IH as (s & c & E & Hc); [discriminate|].
    exists (w ++ py " " ++ s), c. split; [|exact Hc].
    rewrite join_cons, <- !app_assoc. do 2 f_equal. exact E.
Qed.

Lemma strip_join (words : list str) :
  Forall (fun w => w <> [] /\ Forall (fun c => plain_char c = true) w) words ->
  strip (join (py " ") words) = join (py " ") words.
Proof.
  intros H. unfold strip. rewrite (lstrip_join words H).
  destruct words as [|w words]; [reflexivity|].
  destruct (join_last _ H) as (s & c & E & Hc); [discriminate|].
  rewrite E. unfold rstrip. rewrite rev_app_distr. cbn [rev app lstrip].
  rewrite Hc. cbn [rev]. rewrite rev_involutive. reflexivity.
Qed.

Lemma filter_all {A} (f : A -> bool) (l : list A) :
  Forall (fun x => f x = true) l -> filter f l = l.
Proof.
  induction 1 as [|x l Hx _ IH]; cbn [filter]; [reflexivity|].
  rewrite Hx, IH. reflexivity.
Qed.

Lemma split_from_plain (w s cur : str) :
  Forall (fun c => isspace c = false) w ->
  split_from (w ++ s) cur = split_from s (cur ++ w).
Proof.
  intros Hw. revert cur. induction Hw as [|c w Hc _ IH]; intros cur;
    cbn [app split_from].
  - rewrite app_nil_r; reflexivity.
  - rewrite Hc, IH, <- app_assoc. reflexivity.
Qed.

Lemma split_join (words : list str) :
  Forall (fun w => w <> [] /\ Forall (fun c => plain_char c = true) w) words ->
  split (join (py " ") words) = words.
Proof.
  unfold split.
  induction 1 as [|w words [Hne Hw] Hws IH]; [reflexivity|].
  assert (Hsp : Forall (fun c => isspace c = false) w).
  { eapply Forall_impl; [|exact Hw]. intros c Hc.
    apply plain_char_spec in Hc. tauto. }
  destruct words as [|w' words].
  - cbn [join]. rewrite <- (app_nil_r w) at 1.
    rewrite split_from_plain by exact Hsp. cbn [app split_from].
    destruct w; [congruence | reflexivity].
  - rewrite join_cons, split_from_plain by exact Hsp. cbn [app].
    change (py " " ++ join (py " ") (w' :: words))
      with (32 :: join (py " ") (w' :: words)).
    cbn [split_from]. change (isspace 32) with true. cbv iota.
    destruct w; [congruence|]. rewrite IH. reflexivity.
Qed.

Lemma text_normalize_join (words : list str) :
  Forall (fun w => w <> [] /\ Forall (fun c => plain_char c = true) w) words ->
  lower (join (py " ") words) = join (py " ") words ->
  text_normalize (join (py " ") words) = join (py " ") words.
Proof.
  intros H Hl. unfold text_normalize, re_sub_runs, re_delete_outside.
  rewrite (strip_join words H), (sub_runs_join words H), Hl.
  rewrite sub_runs_none.
  - apply filter_all, join_Forall.
    + repeat constructor. unfold is_allowed.
      change (isspace 32) with true. rewrite orb_true_r. reflexivity.
    + apply (plain_word_Forall _ words); [|exact H].
      intros c Hc. apply plain_char_spec in Hc. tauto.
  - apply join_Forall.
    + repeat constructor.
    + apply (plain_word_Forall _ words); [|exact H].
      intros c Hc. apply plain_char_spec in Hc. tauto.
Qed.

(** X20.  A text made of non-empty words of plain characters (no
    whitespace, no separator, nothing the last substitution deletes) joined
    by single blanks, and which [lower] leaves unchanged, is its own
    normalization; on such texts [text_normalize] is idempotent, and
    [split] gives the words back. *)
Theorem text_normalize_fixed_point (words : list str) :
  Forall (fun w => w <> [] /\ Forall (fun c => plain_char c = true) w) words ->
  lower (join (py " ") words) = join (py " ") words ->
  text_normalize (join (py " ") words) = join (py " ") words /\
  text_normalize (text_normalize (join (py " ") words))
  = text_normalize (join (py " ") words) /\
  split (text_normalize (join (py " ") words)) = words.
Proof.
  intros H Hl. rewrite !(text_normalize_join words H Hl).
  repeat split. exact (split_join words H).
Qed.

(** X21.  On such a text [g2p] works word by word: its phonemes are the
    tokens of the words in order and [word2ph] has one count per word; and
    [clean_text] for [vi] returns the text itself as normalized text. *)
Theorem g2p_of_words (words : list str) (version : option str) :
  Forall (fun w => w <> [] /\ Forall (fun c => plain_char c = true) w) words ->
  lower (join (py " ") words) = join (py " ") words ->
  g2p (join (py " ") words)
  = (flat_map emitted_tokens words,
     map (fun w => len (emitted_tokens w)) words) /\
  clean_text (join (py " ") words) (py "vi") version
  = Ok (map (validated (active_symbols version))
            (flat_map emitted_tokens words),
        Some (map (fun w => len (emitted_tokens w)) words),
        join (py " ") words).
Proof.
  intros H Hl.
  assert (G : g2p (join (py " ") words)
              = (flat_map emitted_tokens words,
                 map (fun w => len (emitted_tokens w)) words)).
  { rewrite g2p_eq, (text_normalize_join words H Hl), (split_join words H).
    reflexivity. }
  split; [exact G|].
  unfold clean_text. rewrite clean_text_in_vi.
  rewrite (text_normalize_join words H Hl), G. reflexivity.
Qed.

End Program.

(** ** Concrete runs

    The dispatcher over the Latin tables, the sample symbol table for both
    versions, an empty environment and the silent collaborators. *)
Notation sample_clean_text :=
  (clean_text latin_lower latin_isalnum sample_symbols sample_symbols []
     silent_aligned_module silent_aligned_module silent_module silent_module
     silent_module silent_aligned_module).

Notation sample_g2p := (g2p latin_lower latin_isalnum).

(** The scenarios of the specification. *)
Example split_vietnamese_word_toi :
  split_vietnamese_word (py "tôi") = (py "t", py "ôi", py "1").
Proof. vm_compute. reflexivity. Qed.

Example g2p_xin_chao :
  sample_g2p (py "xin chào")
  = ([py "x"; py "in"; py "ch"; py "ao"; py "2"], [2; 3]%Z).
Proof. vm_compute. reflexivity. Qed.

Example clean_text_fr :
  sample_clean_text (py "") (py "fr") None = Ok ([py ","], None, py " ").
Proof. vm_compute. reflexivity. Qed.

(** A word with two tone marks takes the tone of the second. *)
Example find_tone_two_marks :
  find_tone (py "àá") = (py "aa", py "3").
Proof. vm_compute. reflexivity. Qed.

(** A final repaired by the third rewrite. *)
Example split_vietnamese_word_repaired :
  split_vietnamese_word (py "mưoi") = (py "m", py "ươi", py "1").
Proof. vm_compute. reflexivity. Qed.

(** C4 at the characters [à] (in the table) and [x] (not in it), and at the
    word [hoà]. *)
Lemma find_tone_spec_witness :
  find_tone (py "à") = (py "a", py "2") /\
  snd (find_tone (py "hoà")) = py "2" /\
  find_tone (py "x") = (py "x", py "1") /\
  snd (find_tone (py "xin")) = py "1".
Proof.
  split; [|split; [|split]].
  - apply (proj1 (proj2 (proj2 (proj2 find_tone_spec))) 224).
    reflexivity.
  - apply (proj1 (proj2 (proj2 find_tone_spec))
             (py "ho") 224 [] (py "a") (py "2")).
    + reflexivity.
    + intros c' [].
  - apply (proj2 (proj2 (proj2 (proj2 find_tone_spec))) 120).
    reflexivity.
  - apply (proj1 (proj2 find_tone_spec) (py "xin")).
    intros c [<- | [<- | [<- | []]]]; reflexivity.
Defined.

(** C6 at the special token [SP] and at the word [chào]. *)
Lemma g2p_per_word_witness :
  emitted_tokens (py "SP") = [py "SP"] /\
  (0 <= len (emitted_tokens (py "chào")) <= 3)%Z.
Proof.
  split.
  - apply (proj1 (proj2 (g2p_per_word latin_lower latin_isalnum []))).
    right; reflexivity.
  - apply (proj2 (proj2 (g2p_per_word latin_lower latin_isalnum []))).
Defined.

(** C7 over the Latin tables. *)
Lemma text_normalize_not_idempotent_witness :
  text_normalize latin_lower latin_isalnum
    (text_normalize latin_lower latin_isalnum (py "a @ b"))
  <> text_normalize latin_lower latin_isalnum (py "a @ b").
Proof.
  apply (text_normalize_not_idempotent latin_lower latin_isalnum).
  - intros s _. reflexivity.
  - intros c _. reflexivity.
Defined.

(** C2 on a Vietnamese run. *)
Lemma clean_text_symbol_closure_witness :
  sample_clean_text (py "xin chào") (py "vi") None
  = Ok ([py "x"; py "in"; py "ch"; py "ao"; py "2"], Some [2; 3]%Z,
        py "xin chào") /\
  Forall (fun ph => In ph sample_symbols \/ ph = py "UNK")
         [py "x"; py "in"; py "ch"; py "ao"; py "2"].
Proof.
  assert (H : sample_clean_text (py "xin chào") (py "vi") None
              = Ok ([py "x"; py "in"; py "ch"; py "ao"; py "2"],
                    Some [2; 3]%Z, py "xin chào"))
    by (vm_compute; reflexivity).
  split; [exact H|].
  exact (proj2 (clean_text_symbol_closure _ _ _ _ _ _ _ _ _ _ _ _ _ _ _ _ _ H)).
Defined.

(** C3 as stated fails: an English strategy that finds no phoneme in a blank
    text leaves [clean_text] with the comma alone. *)
Lemma clean_text_en_short_counterexample :
  g2p_attr silent_module (py " ") = Ok (Phones []) /\
  sample_clean_text (py " ") (py "en") None = Ok ([py ","], None, py " ") /\
  ~ (4 <= len [py ","])%Z.
Proof.
  split; [reflexivity|]. split; [vm_compute; reflexivity|].
  vm_compute. intros H. apply H. reflexivity.
Defined.

(** C3, amended, on the same run. *)
Lemma clean_text_en_padding_witness :
  exists returned,
    sample_clean_text (py " ") (py "en") None = Ok (returned, None, py " ") /\
    len returned = 1%Z.
Proof.
  destruct (clean_text_en_padding latin_lower latin_isalnum sample_symbols
              sample_symbols [] silent_aligned_module silent_aligned_module
              silent_module silent_module silent_module silent_aligned_module
              (py " ") None (py " ") [] eq_refl eq_refl)
    as (returned & Hret & _ & Hlen & _).
  exists returned. split; [exact Hret|].
  apply Hlen. reflexivity.
Defined.

(** C8 on the language [fr]. *)
Lemma clean_text_unknown_language_witness :
  sample_clean_text (py "bonjour") (py "fr") None
  = sample_clean_text (py " ") (py "en") None /\
  sample_clean_text (py "bonjour") (py "fr") None
  = Ok ([py ","], None, py " ").
Proof.
  destruct (clean_text_unknown_language latin_lower latin_isalnum
              sample_symbols sample_symbols [] silent_aligned_module
              silent_aligned_module silent_module silent_module silent_module
              silent_aligned_module (py "bonjour") (py "fr") None eq_refl)
    as [Hsame Hrun].
  split; [exact Hsame|].
  exact (Hrun (py " ") [] eq_refl eq_refl).
Defined.

(** C9 on a Chinese text that holds the caret marker. *)
Lemma clean_text_special_unbound_witness :
  sample_clean_text (py "a^b") (py "zh") None
  = Raise (NameError (py "clean_special")).
Proof.
  apply (clean_text_special_unbound latin_lower latin_isalnum sample_symbols
           sample_symbols [] silent_aligned_module silent_aligned_module
           silent_module silent_module silent_module silent_aligned_module
           (py "a^b") None (py "^") (py "zh") (py "SP3")).
  - right; left; reflexivity.
  - reflexivity.
Defined.

(** ** Concrete runs of the further properties *)

(** X4 at the word [xin]. *)
Lemma find_tone_plain_word_witness :
  find_tone (py "xin") = (py "xin", py "1").
Proof.
  apply find_tone_plain_word.
  intros c [<- | [<- | [<- | []]]]; reflexivity.
Defined.

(** X6 at the remainder [uoi]. *)
Lemma first_rewrites_never_valid_witness :
  in_list (replace (py "uoi") (py "uo") (py "ưo")) FINALS = false /\
  in_list (replace (py "uoi") (py "ua") (py "ưa")) FINALS = false.
Proof. apply first_rewrites_never_valid. reflexivity. Defined.

(** X8 at the word [chào]. *)
Lemma split_vietnamese_word_initial_tone_witness :
  (py "ch" = [] \/ In (py "ch") INITIALS) /\
  (truthy (py "ch") = true -> in_list (py "ch") INITIALS = true) /\
  In (py "2") TONES.
Proof. exact (split_vietnamese_word_initial_tone latin_lower (py "chào")). Defined.

(** X11 on a text of two blanks. *)
Lemma g2p_blank_witness :
  sample_g2p (py "  ") = ([], []) /\
  sample_clean_text (py "  ") (py "vi") None = Ok ([], Some [], []).
Proof.
  apply g2p_blank; [|reflexivity].
  repeat constructor.
Defined.

(** X12 on the sample symbol table. *)
Lemma clean_text_vi_unchanged_witness :
  sample_clean_text (py "xin chào") (py "vi") None
  = Ok (fst (sample_g2p (text_normalize latin_lower latin_isalnum
                           (py "xin chào"))),
        Some (snd (sample_g2p (text_normalize latin_lower latin_isalnum
                                 (py "xin chào")))),
        text_normalize latin_lower latin_isalnum (py "xin chào")).
Proof.
  apply clean_text_vi_unchanged.
  intros ph H. apply in_list_In. apply in_list_In in H.
  assert (A : forallb (fun ph => in_list ph sample_symbols) g2p_vocabulary
              = true) by (vm_compute; reflexivity).
  rewrite forallb_forall in A. apply A. apply in_list_In. exact H.
Defined.

(** X13 on the silent strategies. *)
Lemma clean_text_plain_class_witness :
  sample_clean_text (py "abc") (py "ja") None = Ok ([], None, py "abc") /\
  sample_clean_text (py "abc") (py "ko") None = Ok ([], None, py "abc").
Proof.
  split.
  - apply (proj1 (clean_text_plain_class latin_lower latin_isalnum
                    sample_symbols sample_symbols [] silent_aligned_module
                    silent_aligned_module silent_module silent_module
                    silent_module silent_aligned_module (py "abc") None
                    (py "abc") [])); reflexivity.
  - apply (proj2 (clean_text_plain_class latin_lower latin_isalnum
                    sample_symbols sample_symbols [] silent_aligned_module
                    silent_aligned_module silent_module silent_module
                    silent_module silent_aligned_module (py "abc") None
                    (py "abc") [])); reflexivity.
Defined.

(** X14 on the silent strategy: it reports no count for the two characters
    of the text, and the second assertion fails. *)
Lemma clean_text_zh_strict_witness :
  sample_clean_text (py "ab") (py "zh") None = Raise AssertionError.
Proof.
  apply (clean_text_zh_strict latin_lower latin_isalnum sample_symbols
           sample_symbols [] silent_aligned_module silent_aligned_module
           silent_module silent_module silent_module silent_aligned_module
           (py "ab") None (py "ab") [] []); reflexivity.
Defined.


(** X16 at a version that is neither [v1] nor [v2]. *)
Lemma clean_text_version_witness :
  sample_clean_text (py "xin") (py "vi") (Some (py "v3"))
  = sample_clean_text (py "xin") (py "vi") (Some (py "v2")).
Proof.
  apply (proj2 (clean_text_version latin_lower latin_isalnum sample_symbols
                  sample_symbols [] silent_aligned_module
                  silent_aligned_module silent_module silent_module
                  silent_module silent_aligned_module (py "xin") (py "vi")
                  (Some (py "v3")))).
  reflexivity.
Defined.

(** X17 on a failing English strategy. *)
Lemma clean_text_en_propagates_witness :
  clean_text latin_lower latin_isalnum sample_symbols sample_symbols []
    silent_aligned_module silent_aligned_module silent_module failing_module
    silent_module silent_aligned_module (py "hello") (py "en") None
  = Raise (OtherError 0).
Proof.
  apply (clean_text_en_propagates latin_lower latin_isalnum sample_symbols
           sample_symbols [] silent_aligned_module silent_aligned_module
           silent_module failing_module silent_module silent_aligned_module
           (py "hello") None (py "hello")); reflexivity.
Defined.

(** X18 on a text between a blank and a tab. *)
Lemma text_normalize_trims_witness :
  text_normalize latin_lower latin_isalnum ([32] ++ py "xin chào" ++ [9])
  = text_normalize latin_lower latin_isalnum (py "xin chào").
Proof. apply text_normalize_trims; repeat constructor. Defined.

(** X19 on the comma that replaces a semicolon. *)
Lemma text_normalize_chars_witness :
  is_allowed latin_isalnum 44 = true /\ is_separator_punct 44 = false.
Proof.
  apply (text_normalize_chars latin_lower latin_isalnum (py "a;b") 44).
  - intros a _. reflexivity.
  - vm_compute. right; left; reflexivity.
Defined.

(** X20 on the words [xin] and [chào]. *)
Lemma text_normalize_fixed_point_witness :
  text_normalize latin_lower latin_isalnum (py "xin chào") = py "xin chào" /\
  text_normalize latin_lower latin_isalnum
    (text_normalize latin_lower latin_isalnum (py "xin chào"))
  = text_normalize latin_lower latin_isalnum (py "xin chào") /\
  split (text_normalize latin_lower latin_isalnum (py "xin chào"))
  = [py "xin"; py "chào"].
Proof.
  apply (text_normalize_fixed_point latin_lower latin_isalnum
           [py "xin"; py "chào"]).
  - repeat constructor; discriminate.
  - reflexivity.
Defined.

(** X21 on the same words. *)
Lemma g2p_of_words_witness :
  sample_g2p (py "xin chào")
  = (flat_map emitted_tokens [py "xin"; py "chào"],
     map (fun w => len (emitted_tokens w)) [py "xin"; py "chào"]) /\
  sample_clean_text (py "xin chào") (py "vi") None
  = Ok (map (validated sample_symbols)
            (flat_map emitted_tokens [py "xin"; py "chào"]),
        Some (map (fun w => len (emitted_tokens w)) [py "xin"; py "chào"]),
        py "xin chào").
Proof.
  apply (g2p_of_words latin_lower latin_isalnum sample_symbols sample_symbols
           [] silent_aligned_module silent_aligned_module silent_module
           silent_module silent_module silent_aligned_module
           [py "xin"; py "chào"] None).
  - repeat constructor; discriminate.
  - reflexivity.
Defined.
